(** * file_stream.c: the RFILE handle of libretro-common

    A shallow embedding of [libretro-common/streams/file_stream.c] and
    the properties of its read / seek / tell / write dispatch.

    Conventions of the embedding.

    - Target ABI: LP64 with [HAVE_MMAP] defined and the non-Windows
      branches of the preprocessor.  [size_t] and [uint64_t] are [Z]
      wrapped by [wrap64]; [ssize_t], [int64_t] and [long] are [Z]
      reinterpreted by [sint64].
    - A pointer that the code tests against [NULL] is an [option]:
      [RFILE *stream] is [option RFILE], [void *s] is [option buffer].
    - The C library and the kernel are not part of the file; they enter
      through the record [libc], over an abstract type of worlds.  The
      general theorems hold for every such record; [Posix] is one instance
      used for concrete runs.
    - Undefined behaviour that the code can reach (a store through a null
      handle, a copy outside the mapped window or outside the destination)
      is a [Fault] of the [outcome] monad.
    - Embedded: the callback wrappers ([filestream_read_impl],
      [filestream_write_impl], [filestream_seek_impl],
      [filestream_tell_impl], [filestream_flush_impl],
      [filestream_file_size_impl]), the public operations on an open
      handle (read, write, seek, tell, size, flush, rewind, eof, error,
      getc, gets, putc), [filestream_set_size], [filestream_open],
      [filestream_close], [filestream_delete], formatted output and the
      whole-file helpers.  The calls they add enter through the record
      [libc_files]; [Linux] is an instance with a file system.  The
      registration of callbacks is left out: no function of the file calls
      a registered callback.
    - [struct RFILE] is private to the file.  The theorems on one operation
      hold for every state of the handle that meets their hypotheses;
      [opened] says which states a caller can hold. *)

From Stdlib Require Import ZArith List Bool Lia.
From Stdlib Require Import Init.Byte.
From Stdlib Require Import Strings.Ascii.
From stdpp Require Import base option list gmap.
From stdpp Require Import strings.

Local Open Scope Z_scope.

(* ================================================================== *)
(** ** Machine integers *)

(** [uint64_t] / [size_t]: arithmetic modulo 2^64. *)
Definition wrap64 (z : Z) : Z := z mod 2 ^ 64.

(** [int64_t] / [ssize_t]: the two's complement reading of the low 64 bits;
    this is the conversion applied by [return stream->mappos;] and by
    [return len;] in functions whose result type is [ssize_t]. *)
Definition sint64 (z : Z) : Z := (z + 2 ^ 63) mod 2 ^ 64 - 2 ^ 63.

Definition SIZE_MAX : Z := 2 ^ 64 - 1.
Definition SSIZE_MAX : Z := 2 ^ 63 - 1.

(* ================================================================== *)
(** ** Outcomes: results or undefined behaviour *)

Inductive fault : Type :=
| NullDeref      (* load or store through a null pointer *)
| OutOfBounds.   (* access outside the object pointed to *)

Inductive outcome (A : Type) : Type :=
| Ok (a : A)
| Fault (k : fault).

Arguments Ok {A} a.
Arguments Fault {A} k.

Definition obind {A B : Type} (m : outcome A) (k : A -> outcome B) : outcome B :=
  match m with
  | Ok a => k a
  | Fault e => Fault e
  end.

#[global] Instance outcome_ret : MRet outcome := fun A a => Ok a.
#[global] Instance outcome_bind : MBind outcome := fun A B k m => obind m k.

(* ================================================================== *)
(** ** Memory: byte buffers and the mapped window *)

Abbreviation buffer := (list byte).

(** [memcpy(dst, data, |data|)] into a caller's buffer: the first [|data|]
    bytes are overwritten; a buffer that is too short is overrun. *)
Definition store (dst : buffer) (data : list byte) : outcome buffer :=
  if (length data <=? length dst)%nat
  then Ok (data ++ drop (length data) dst)
  else Fault OutOfBounds.

(** [p[i] = b] on a caller's buffer. *)
Definition poke (dst : option buffer) (i : nat) (b : byte) : outcome (option buffer) :=
  match dst with
  | None => Fault NullDeref
  | Some d =>
      if (i <? length d)%nat then Ok (Some (<[i := b]> d)) else Fault OutOfBounds
  end.

(** The source side of [memcpy(s, &stream->mapped[off], len)]: the [len]
    bytes of the window from offset [off] on. *)
Definition window_bytes (win : option (list byte)) (off len : Z) : outcome (list byte) :=
  match win with
  | None => Fault NullDeref
  | Some m =>
      if off + len <=? Z.of_nat (length m)
      then Ok (take (Z.to_nat len) (drop (Z.to_nat off) m))
      else Fault OutOfBounds
  end.

(** [char] to [int] and back.  Whether plain [char] is signed is fixed by
    the ABI ([char_signed] of the platform record). *)
Definition byte_val (b : byte) : Z := Z.of_N (Byte.to_N b).

Definition char_to_int (signed : bool) (b : byte) : Z :=
  if signed && (128 <=? byte_val b) then byte_val b - 256 else byte_val b.

Definition int_to_char (c : Z) : byte :=
  match Byte.of_N (Z.to_N (c mod 256)) with
  | Some b => b
  | None => x00
  end.

(* ================================================================== *)
(** ** Constants *)

Definition vfs_error_return_value : Z := -1.

Definition RFILE_HINT_UNBUFFERED : Z := Z.shiftl 1 8.

(** Modelled from the spec: [libretro.h] is not part of the sources at
    hand; the memory-map hint is one flag bit among the caller's hints,
    different from [RFILE_HINT_UNBUFFERED]. *)
Definition RETRO_VFS_FILE_ACCESS_HINT_MEMORY_MAP : Z := Z.shiftl 1 0.

(** [<stdio.h>] *)
Definition SEEK_SET : Z := 0.
Definition SEEK_CUR : Z := 1.
Definition SEEK_END : Z := 2.
Definition EOF : Z := -1.

(* ================================================================== *)
(** ** The handle *)

(** [FILE *]: a stream is named by a number, [None] is the null pointer. *)
Definition FILEp : Type := option Z.

Record RFILE : Type := mkRFILE {
  error_flag : bool;
  fd         : Z;
  hints      : Z;
  size       : Z;
  mappos     : Z;                   (* uint64_t *)
  mapsize    : Z;                   (* uint64_t *)
  buf        : option buffer;
  fp         : FILEp;
  mapped     : option (list byte)   (* uint8_t *, the mapped window *)
}.

Definition set_error_flag (b : bool) (f : RFILE) : RFILE :=
  mkRFILE b (fd f) (hints f) (size f) (mappos f) (mapsize f) (buf f) (fp f) (mapped f).

Definition set_mappos (p : Z) (f : RFILE) : RFILE :=
  mkRFILE (error_flag f) (fd f) (hints f) (size f) p (mapsize f) (buf f) (fp f) (mapped f).

(** [(stream->hints & RFILE_HINT_UNBUFFERED) == 0] *)
Definition is_buffered (f : RFILE) : bool :=
  Z.land (hints f) RFILE_HINT_UNBUFFERED =? 0.

(** [stream->hints & RETRO_VFS_FILE_ACCESS_HINT_MEMORY_MAP] *)
Definition has_mmap_hint (f : RFILE) : bool :=
  negb (Z.land (hints f) RETRO_VFS_FILE_ACCESS_HINT_MEMORY_MAP =? 0).

(** [stream->mapped && stream->hints & RETRO_VFS_FILE_ACCESS_HINT_MEMORY_MAP] *)
Definition is_mapped (f : RFILE) : bool :=
  match mapped f with
  | Some _ => has_mmap_hint f
  | None => false
  end.

(* ================================================================== *)
(** ** The platform: C library and kernel calls made by the file *)

(** Every call threads the world [W].  A call that fills a caller's buffer
    returns the bytes it stored; the embedding puts them into the buffer
    with [store].  A call that reads a caller's buffer receives the pointer
    as the code passes it, null or not, and may fault on it.  Results are
    the C return values. *)
Record libc (W : Type) : Type := mkLibc {
  (* size_t fread(s, 1, len, fp) *)
  c_fread  : W -> FILEp -> Z -> Z * list byte * W;
  (* size_t fwrite(s, 1, len, fp) *)
  c_fwrite : W -> option buffer -> Z -> FILEp -> outcome (Z * W);
  (* int fseek(fp, offset, whence) *)
  c_fseek  : W -> FILEp -> Z -> Z -> Z * W;
  (* long ftell(fp) *)
  c_ftell  : W -> FILEp -> Z * W;
  (* int fflush(fp) *)
  c_fflush : W -> FILEp -> Z * W;
  (* int fputc(c, fp) *)
  c_fputc  : W -> Z -> FILEp -> Z * W;
  (* ssize_t read(fd, s, len) *)
  c_read   : W -> Z -> Z -> Z * list byte * W;
  (* ssize_t write(fd, s, len) *)
  c_write  : W -> Z -> option buffer -> Z -> outcome (Z * W);
  (* off_t lseek(fd, offset, whence) *)
  c_lseek  : W -> Z -> Z -> Z -> Z * W;
  (* is plain char a signed type? *)
  char_signed : bool
}.

Arguments c_fread {W} _ _ _ _.
Arguments c_fwrite {W} _ _ _ _ _.
Arguments c_fseek {W} _ _ _ _ _.
Arguments c_ftell {W} _ _ _.
Arguments c_fflush {W} _ _ _.
Arguments c_fputc {W} _ _ _ _.
Arguments c_read {W} _ _ _ _.
Arguments c_write {W} _ _ _ _ _.
Arguments c_lseek {W} _ _ _ _ _.
Arguments char_signed {W} _.

Section Filestream.
Context {W : Type} (P : libc W).

(** What a call on a handle leaves behind: the C return value, the handle
    (the pointee of [stream], if any) and the world. *)
Definition res : Type := Z * option RFILE * W.

(** The same with the caller's buffer. *)
Definition resb : Type := Z * option RFILE * option buffer * W.

(* ---------------------------------------------------------------- *)
(** *** Callback wrappers *)

(** [if (stream->mappos + len > stream->mapsize)
       len = stream->mapsize - stream->mappos;]
    a sum of two 64-bit unsigned values. *)
Definition clamp_len (f : RFILE) (len : Z) : Z :=
  if mapsize f <? wrap64 (mappos f + len)
  then wrap64 (mapsize f - mappos f)
  else len.

Definition filestream_read_impl (w : W) (stream : option RFILE)
    (s : option buffer) (len : Z) : outcome resb :=
  match stream, s with
  | Some f, Some dst =>
      if is_buffered f then
        let '(n, data, w') := c_fread P w (fp f) len in
        dst' ← store dst data;
        Ok (sint64 n, stream, Some dst', w')
      else if has_mmap_hint f then
        if mapsize f <? mappos f then
          Ok (-1, stream, s, w)
        else
          let len := clamp_len f len in
          data ← window_bytes (mapped f) (mappos f) len;
          dst' ← store dst data;
          Ok (sint64 len, Some (set_mappos (wrap64 (mappos f + len)) f), Some dst', w)
      else
        let '(n, data, w') := c_read P w (fd f) len in
        dst' ← store dst data;
        Ok (n, stream, Some dst', w')
  | _, _ => Ok (-1, stream, s, w)
  end.

Definition filestream_flush_impl (w : W) (stream : option RFILE) : res :=
  match stream with
  | None => (-1, stream, w)
  | Some f => let '(r, w') := c_fflush P w (fp f) in (r, stream, w')
  end.

Definition filestream_file_size_impl (stream : option RFILE) : Z :=
  match stream with
  | None => 0
  | Some f => size f
  end.

Definition filestream_seek_impl (w : W) (stream : option RFILE)
    (offset whence : Z) : res :=
  match stream with
  | None => (-1, stream, w)
  | Some f =>
      if is_buffered f then
        let '(r, w') := c_fseek P w (fp f) offset whence in
        (r, stream, w')
      else if is_mapped f then
        if whence =? SEEK_SET then
          if offset <? 0 then (-1, stream, w)
          else
            let f' := set_mappos (wrap64 offset) f in
            (sint64 (mappos f'), Some f', w)
        else if whence =? SEEK_CUR then
          if ((offset <? 0) && (mappos f <? wrap64 (mappos f + offset)))
             || ((0 <? offset) && (wrap64 (mappos f + offset) <? mappos f))
          then (-1, stream, w)
          else
            let f' := set_mappos (wrap64 (mappos f + offset)) f in
            (sint64 (mappos f'), Some f', w)
        else if whence =? SEEK_END then
          if wrap64 (mapsize f + offset) <? mapsize f then (-1, stream, w)
          else
            let f' := set_mappos (wrap64 (mapsize f + offset)) f in
            (sint64 (mappos f'), Some f', w)
        else
          (sint64 (mappos f), stream, w)
      else
        let '(r, w') := c_lseek P w (fd f) offset whence in
        if r <? 0 then (-1, stream, w') else (0, stream, w')
  end.

Definition filestream_tell_impl (w : W) (stream : option RFILE) : res :=
  match stream with
  | None => (-1, stream, w)
  | Some f =>
      if is_buffered f then
        let '(r, w') := c_ftell P w (fp f) in
        (r, stream, w')
      else if is_mapped f then
        (sint64 (mappos f), stream, w)
      else
        let '(r, w') := c_lseek P w (fd f) 0 SEEK_CUR in
        if r <? 0 then (-1, stream, w') else (0, stream, w')
  end.

Definition filestream_write_impl (w : W) (stream : option RFILE)
    (s : option buffer) (len : Z) : outcome res :=
  match stream with
  | None => Ok (-1, stream, w)
  | Some f =>
      if is_buffered f then
        '(n, w') ← c_fwrite P w s len (fp f);
        Ok (sint64 n, stream, w')
      else if has_mmap_hint f then
        Ok (-1, stream, w)
      else
        '(n, w') ← c_write P w (fd f) s len;
        Ok (n, stream, w')
  end.

(* ---------------------------------------------------------------- *)
(** *** The public operations *)

(** [if (output == vfs_error_return_value) stream->error_flag = true;]
    The store goes through [stream] whatever it is. *)
Definition flag_failure (output : Z) (stream : option RFILE) : outcome (option RFILE) :=
  if output =? vfs_error_return_value then
    match stream with
    | Some f => Ok (Some (set_error_flag true f))
    | None => Fault NullDeref
    end
  else Ok stream.

Definition filestream_get_size (w : W) (stream : option RFILE) : outcome res :=
  let output := filestream_file_size_impl stream in
  stream' ← flag_failure output stream;
  Ok (output, stream', w).

Definition filestream_seek (w : W) (stream : option RFILE)
    (offset whence : Z) : outcome res :=
  let '(output, stream, w) := filestream_seek_impl w stream offset whence in
  stream' ← flag_failure output stream;
  Ok (output, stream', w).

Definition filestream_tell (w : W) (stream : option RFILE) : outcome res :=
  let '(output, stream, w) := filestream_tell_impl w stream in
  stream' ← flag_failure output stream;
  Ok (output, stream', w).

Definition filestream_read (w : W) (stream : option RFILE)
    (s : option buffer) (len : Z) : outcome resb :=
  '(output, stream, s, w) ← filestream_read_impl w stream s len;
  stream' ← flag_failure output stream;
  Ok (output, stream', s, w).

Definition filestream_flush (w : W) (stream : option RFILE) : outcome res :=
  let '(output, stream, w) := filestream_flush_impl w stream in
  stream' ← flag_failure output stream;
  Ok (output, stream', w).

Definition filestream_write (w : W) (stream : option RFILE)
    (s : option buffer) (len : Z) : outcome res :=
  '(output, stream, w) ← filestream_write_impl w stream s len;
  stream' ← flag_failure output stream;
  Ok (output, stream', w).

Definition filestream_rewind (w : W) (stream : option RFILE) : outcome (option RFILE * W) :=
  match stream with
  | None => Ok (stream, w)
  | Some _ =>
      '(_, stream, w) ← filestream_seek w stream 0 SEEK_SET;
      match stream with
      | Some f => Ok (Some (set_error_flag false f), w)
      | None => Fault NullDeref
      end
  end.

Definition filestream_eof (w : W) (stream : option RFILE) : outcome res :=
  '(current_position, stream, w) ← filestream_tell w stream;
  '(end_position, stream, w) ← filestream_get_size w stream;
  Ok (if end_position <=? current_position then 1 else 0, stream, w).

Definition filestream_error (stream : option RFILE) : Z :=
  match stream with
  | Some f => if error_flag f then 1 else 0
  | None => 0
  end.

Definition filestream_putc (w : W) (stream : option RFILE) (c : Z) : res :=
  match stream with
  | None => (EOF, stream, w)
  | Some f => let '(r, w') := c_fputc P w c (fp f) in (r, stream, w')
  end.

(* ---------------------------------------------------------------- *)
(** *** Character and line helpers *)

(** [char c = 0; ... filestream_read(stream, &c, 1) ... return (int)c;] *)
Definition filestream_getc (w : W) (stream : option RFILE) : outcome res :=
  match stream with
  | None => Ok (0, stream, w)
  | Some _ =>
      '(n, stream, c, w) ← filestream_read w stream (Some [x00]) 1;
      if n =? 1 then
        match c with
        | Some (b :: _) => Ok (char_to_int (char_signed P) b, stream, w)
        | _ => Ok (0, stream, w)
        end
      else Ok (EOF, stream, w)
  end.

(** State of the loop of [filestream_gets]: the offset [p - s], the last
    value of [c], the destination, the handle and the world. *)
Definition gets_state : Type := nat * Z * option buffer * option RFILE * W.

(** [for (...; len > 0; len--)] with [n] the value of [len] on entry. *)
Fixpoint gets_loop (n : nat) (w : W) (stream : option RFILE)
    (s : option buffer) (p : nat) (c : Z) : outcome gets_state :=
  match n with
  | O => Ok (p, c, s, stream, w)
  | S n' =>
      '(c, stream, w) ← filestream_getc w stream;
      if c =? EOF then Ok (p, c, s, stream, w)
      else
        s ← poke s p (int_to_char c);
        if c =? 10 then Ok (S p, c, s, stream, w)
        else gets_loop n' w stream s (S p) c
  end.

(** The result is the pointer [p], given as its offset from [s];
    [None] is the null result. *)
Definition filestream_gets (w : W) (stream : option RFILE)
    (s : option buffer) (len : Z)
  : outcome (option nat * option buffer * option RFILE * W) :=
  match stream with
  | None => Ok (None, s, stream, w)
  | Some _ =>
      '(p, c, s, stream, w) ← gets_loop (Z.to_nat (wrap64 (len - 1))) w stream s 0%nat 0;
      s ← poke s p x00;
      Ok (if (p =? 0)%nat || (c =? EOF) then None else Some p, s, stream, w)
  end.

(** [n] calls of [filestream_getc] in a row, and the values they return. *)
Fixpoint getc_seq (n : nat) (w : W) (stream : option RFILE)
  : outcome (list Z * option RFILE * W) :=
  match n with
  | O => Ok ([], stream, w)
  | S n' =>
      '(c, stream, w) ← filestream_getc w stream;
      '(cs, stream, w) ← getc_seq n' w stream;
      Ok (c :: cs, stream, w)
  end.

End Filestream.

(* ================================================================== *)
(** ** A POSIX instance of the platform *)

(** One open file description per descriptor and per stream: contents, file
    offset and access mode.  Streams are seen through their buffer, so a
    stream is a file with an offset as well.  This is what POSIX says of
    [read], [write], [lseek] and of [fread], [fwrite], [fseek], [ftell],
    [fflush], [fputc] on regular files, for one handle at a time. *)
Module Posix.

Inductive access : Type := O_RDONLY | O_WRONLY | O_RDWR.

Definition readable (a : access) : bool :=
  match a with O_WRONLY => false | _ => true end.

Definition writable (a : access) : bool :=
  match a with O_RDONLY => false | _ => true end.

Record ofile : Type := mkOfile {
  content : list byte;
  offset  : Z;
  acc     : access
}.

Record world : Type := mkWorld {
  fds     : gmap Z ofile;    (* open descriptors *)
  streams : gmap Z ofile     (* open streams *)
}.

Definition with_fd (w : world) (d : Z) (o : ofile) : world :=
  mkWorld (<[d := o]> (fds w)) (streams w).

Definition with_stream (w : world) (d : Z) (o : ofile) : world :=
  mkWorld (fds w) (<[d := o]> (streams w)).

(** Reading at the offset: what is there, up to [len] bytes. *)
Definition file_read (o : ofile) (len : Z) : list byte * ofile :=
  let data := take (Z.to_nat len) (drop (Z.to_nat (offset o)) (content o)) in
  (data, mkOfile (content o) (offset o + Z.of_nat (length data)) (acc o)).

(** Writing at the offset: a gap past the end reads as zero bytes. *)
Definition file_write (o : ofile) (data : list byte) : ofile :=
  let off := Z.to_nat (offset o) in
  let padded := content o ++ replicate (off - length (content o))%nat x00 in
  mkOfile (take off padded ++ data ++ drop (off + length data)%nat (content o))
          (offset o + Z.of_nat (length data)) (acc o).

(** The new offset, when it is not negative and a value of [off_t].  A file
    system may refuse offsets above a limit of its own, and Linux knows
    further values of [whence]; neither is modelled, and the theorems use
    this function for offsets inside the file only. *)
Definition file_seek (o : ofile) (off whence : Z) : option ofile :=
  let base :=
    if whence =? SEEK_SET then Some 0
    else if whence =? SEEK_CUR then Some (offset o)
    else if whence =? SEEK_END then Some (Z.of_nat (length (content o)))
    else None in
  match base with
  | Some b =>
      if (0 <=? b + off) && (b + off <=? SSIZE_MAX)
      then Some (mkOfile (content o) (b + off) (acc o))
      else None
  | None => None
  end.

(** The bytes a write call takes from the caller's buffer. *)
Definition source_bytes (s : option buffer) (len : Z) : outcome (list byte) :=
  match s with
  | None => Fault NullDeref
  | Some src =>
      if len <=? Z.of_nat (length src)
      then Ok (take (Z.to_nat len) src)
      else Fault OutOfBounds
  end.

Definition p_read (w : world) (d len : Z) : Z * list byte * world :=
  match fds w !! d with
  | Some o =>
      if readable (acc o) then
        let '(data, o') := file_read o len in
        (Z.of_nat (length data), data, with_fd w d o')
      else (-1, [], w)
  | None => (-1, [], w)
  end.

(** [write] hands a null buffer back as [EFAULT]. *)
Definition p_write (w : world) (d : Z) (s : option buffer) (len : Z)
  : outcome (Z * world) :=
  match fds w !! d with
  | Some o =>
      if writable (acc o) then
        match s with
        | None => Ok (-1, w)
        | Some _ =>
            data ← source_bytes s len;
            Ok (Z.of_nat (length data), with_fd w d (file_write o data))
        end
      else Ok (-1, w)
  | None => Ok (-1, w)
  end.

Definition p_lseek (w : world) (d off whence : Z) : Z * world :=
  match fds w !! d with
  | Some o =>
      match file_seek o off whence with
      | Some o' => (offset o', with_fd w d o')
      | None => (-1, w)
      end
  | None => (-1, w)
  end.

Definition lookup_stream (w : world) (fp : FILEp) : option (Z * ofile) :=
  match fp with
  | Some d => match streams w !! d with Some o => Some (d, o) | None => None end
  | None => None
  end.

(** [fread] and [fwrite] count items: a failure is a count of zero. *)
Definition p_fread (w : world) (fp : FILEp) (len : Z) : Z * list byte * world :=
  match lookup_stream w fp with
  | Some (d, o) =>
      if readable (acc o) then
        let '(data, o') := file_read o len in
        (Z.of_nat (length data), data, with_stream w d o')
      else (0, [], w)
  | None => (0, [], w)
  end.

(** [fwrite] copies from the caller's buffer itself. *)
Definition p_fwrite (w : world) (s : option buffer) (len : Z) (fp : FILEp)
  : outcome (Z * world) :=
  match lookup_stream w fp with
  | Some (d, o) =>
      if writable (acc o) then
        data ← source_bytes s len;
        Ok (Z.of_nat (length data), with_stream w d (file_write o data))
      else Ok (0, w)
  | None => Ok (0, w)
  end.

Definition p_fseek (w : world) (fp : FILEp) (off whence : Z) : Z * world :=
  match lookup_stream w fp with
  | Some (d, o) =>
      match file_seek o off whence with
      | Some o' => (0, with_stream w d o')
      | None => (-1, w)
      end
  | None => (-1, w)
  end.

Definition p_ftell (w : world) (fp : FILEp) : Z * world :=
  match lookup_stream w fp with
  | Some (_, o) => (offset o, w)
  | None => (-1, w)
  end.

(** Streams are seen through their buffer: nothing is left to flush.
    [fflush(NULL)] flushes every stream. *)
Definition p_fflush (w : world) (fp : FILEp) : Z * world :=
  match fp with
  | None => (0, w)
  | Some _ =>
      match lookup_stream w fp with
      | Some (_, o) => (0, w)
      | None => (EOF, w)
      end
  end.

(** A call on a null stream is undefined in C; the instance answers [EOF],
    and no theorem states the result of a call on a null stream. *)
Definition p_fputc (w : world) (c : Z) (fp : FILEp) : Z * world :=
  match lookup_stream w fp with
  | Some (d, o) =>
      if writable (acc o)
      then (c mod 256, with_stream w d (file_write o [int_to_char c]))
      else (EOF, w)
  | None => (EOF, w)
  end.

(** The instance; plain [char] is signed, as on x86 and x86-64. *)
Definition libc_posix : libc world :=
  mkLibc world p_fread p_fwrite p_fseek p_ftell p_fflush p_fputc
         p_read p_write p_lseek true.

(** The same platform with an unsigned plain [char], as on ARM Linux. *)
Definition libc_posix_uchar : libc world :=
  mkLibc world p_fread p_fwrite p_fseek p_ftell p_fflush p_fputc
         p_read p_write p_lseek false.

End Posix.

(* ================================================================== *)
(** ** Strategies and well-formed handles *)

(** The handle reads through the window [win]: both hint bits are set, the
    window is mapped and is [mapsize] bytes long, and cursor and size are
    values of their type. *)
Definition Mapped (win : list byte) (f : RFILE) : Prop :=
  is_buffered f = false /\ has_mmap_hint f = true /\
  mapped f = Some win /\ mapsize f = Z.of_nat (length win) /\
  0 <= mappos f < 2 ^ 64 /\ mapsize f < 2 ^ 64.

(** A handle on which a one-byte read cannot leave the window: outside the
    mapped path there is nothing to ask, on it the window is there, has the
    recorded size, and the size leaves room for [mappos + 1]. *)
Definition handle_ok (f : RFILE) : Prop :=
  is_buffered f = false -> has_mmap_hint f = true ->
  exists win, mapped f = Some win /\ mapsize f = Z.of_nat (length win) /\
              0 <= mappos f /\ mapsize f < 2 ^ 64 - 1.

(** A platform whose read calls store at most the [len] bytes asked for. *)
Definition reads_bounded {W : Type} (P : libc W) : Prop :=
  forall (w : W) len, 0 <= len ->
    (forall x, Z.of_nat (length (c_fread P w x len).1.2) <= len) /\
    (forall d, Z.of_nat (length (c_read P w d len).1.2) <= len).

(* ================================================================== *)
(** ** The operations as one family *)

(** What an operation hands back: an integer, a pointer into the caller's
    buffer (its offset, or null), or nothing. *)
Inductive retval : Type :=
| RInt (z : Z)
| RPtr (p : option nat)
| RVoid.

Inductive op : Type :=
| OpRead (s : option buffer) (len : Z)
| OpWrite (s : option buffer) (len : Z)
| OpSeek (offset whence : Z)
| OpTell
| OpGetSize
| OpFlush
| OpEof
| OpError
| OpGetc
| OpGets (s : option buffer) (len : Z)
| OpPutc (c : Z)
| OpRewind.

(** The operations that compare their result with
    [vfs_error_return_value]. *)
Definition compares_result (o : op) : bool :=
  match o with
  | OpRead _ _ | OpWrite _ _ | OpSeek _ _ | OpTell | OpGetSize | OpFlush => true
  | _ => false
  end.

Definition is_rewind (o : op) : bool :=
  match o with OpRewind => true | _ => false end.

Definition is_error_query (o : op) : bool :=
  match o with OpError => true | _ => false end.

Section Operations.
Context {W : Type} (P : libc W).

Definition int_result (r : outcome (Z * option RFILE * W))
  : outcome (retval * option RFILE * W) :=
  '(z, stream, w) ← r; Ok (RInt z, stream, w).

(** One call on the handle [f]. *)
Definition run_op (o : op) (w : W) (f : RFILE)
  : outcome (retval * option RFILE * W) :=
  match o with
  | OpRead s len =>
      '(z, stream, _, w) ← filestream_read P w (Some f) s len;
      Ok (RInt z, stream, w)
  | OpWrite s len => int_result (filestream_write P w (Some f) s len)
  | OpSeek offset whence => int_result (filestream_seek P w (Some f) offset whence)
  | OpTell => int_result (filestream_tell P w (Some f))
  | OpGetSize => int_result (filestream_get_size w (Some f))
  | OpFlush => int_result (filestream_flush P w (Some f))
  | OpEof => int_result (filestream_eof P w (Some f))
  | OpError => Ok (RInt (filestream_error (Some f)), Some f, w)
  | OpGetc => int_result (filestream_getc P w (Some f))
  | OpGets s len =>
      '(p, _, stream, w) ← filestream_gets P w (Some f) s len;
      Ok (RPtr p, stream, w)
  | OpPutc c => int_result (Ok (filestream_putc P w (Some f) c))
  | OpRewind =>
      '(stream, w) ← filestream_rewind P w (Some f);
      Ok (RVoid, stream, w)
  end.

(** The result with the flag of the handle blanked. *)
Definition forget_flag (r : outcome (retval * option RFILE * W))
  : outcome (retval * option RFILE * W) :=
  match r with
  | Ok (v, stream, w) => Ok (v, option_map (set_error_flag false) stream, w)
  | Fault k => Fault k
  end.

End Operations.

(* ================================================================== *)
(** ** Sample handles and worlds *)

(** A mapped handle over [win], cursor at [pos]. *)
Definition mapped_file (win : list byte) (pos : Z) : RFILE :=
  mkRFILE false 3
          (Z.lor RFILE_HINT_UNBUFFERED RETRO_VFS_FILE_ACCESS_HINT_MEMORY_MAP)
          (Z.of_nat (length win)) pos (Z.of_nat (length win))
          None None (Some win).

(** An unbuffered handle on descriptor [d], not mapped. *)
Definition fd_file (d : Z) (sz : Z) : RFILE :=
  mkRFILE false d RFILE_HINT_UNBUFFERED sz 0 0 None None None.

(** A buffered handle on stream [d]. *)
Definition stream_file (d : Z) (sz : Z) : RFILE :=
  mkRFILE false 0 0 sz 0 0 None (Some d) None.

Definition abcde : list byte := [x61; x62; x63; x64; x65].

Definition world_empty : Posix.world := Posix.mkWorld ∅ ∅.

Definition world_fd (d : Z) (o : Posix.ofile) : Posix.world :=
  Posix.mkWorld {[ d := o ]} ∅.

Definition world_stream (d : Z) (o : Posix.ofile) : Posix.world :=
  Posix.mkWorld ∅ {[ d := o ]}.

(* ================================================================== *)
(** ** Logical position on the POSIX instance *)

(** Where the next transfer of the handle takes place, by the dispatch of
    seek and tell: the offset of the stream, the mapped cursor, or the
    offset of the descriptor. *)
Definition position (w : Posix.world) (f : RFILE) : option Z :=
  if is_buffered f then
    match Posix.lookup_stream w (fp f) with
    | Some (_, o) => Some (Posix.offset o)
    | None => None
    end
  else if is_mapped f then Some (mappos f)
  else
    match Posix.fds w !! fd f with
    | Some o => Some (Posix.offset o)
    | None => None
    end.

(** The open file behind a handle that is not mapped: the stream of a
    buffered handle, the descriptor of an unbuffered one. *)
Definition backing (w : Posix.world) (f : RFILE) : option Posix.ofile :=
  if is_buffered f then
    match Posix.lookup_stream w (fp f) with
    | Some (_, o) => Some o
    | None => None
    end
  else if has_mmap_hint f then None
  else Posix.fds w !! fd f.

(** Open for reading and writing, at offset 0. *)
Definition rw_at_start (w : Posix.world) (f : RFILE) : Prop :=
  exists o, backing w f = Some o
            /\ Posix.acc o = Posix.O_RDWR /\ Posix.offset o = 0.

(* ================================================================== *)
(** ** The fields fixed when a handle is opened *)

(** Two handles with the same strategy, descriptor, stream, cached size,
    window and buffer: they may differ in [error_flag] and [mappos]. *)
Definition same_strategy (f g : RFILE) : Prop :=
  hints g = hints f /\ fd g = fd f /\ fp g = fp f /\ size g = size f
  /\ mapsize g = mapsize f /\ mapped g = mapped f /\ buf g = buf f.

(* ================================================================== *)
(** ** Opening and closing: the rest of the platform *)

(** Modelled from the spec: [libretro.h] is not part of the sources at
    hand.  The access mode is one of Read, Write, Read-Write and
    Update-existing; [filestream_open] switches on it, and any other value
    of [mode] takes no case of the switch. *)
Inductive access_mode : Type :=
| RETRO_VFS_FILE_ACCESS_READ
| RETRO_VFS_FILE_ACCESS_WRITE
| RETRO_VFS_FILE_ACCESS_READ_WRITE
| RETRO_VFS_FILE_ACCESS_UPDATE_EXISTING
| RETRO_VFS_FILE_ACCESS_OTHER.

(** Modelled from the spec: [libretro.h] is not part of the sources at
    hand; no hint is the empty set of flags. *)
Definition RETRO_VFS_FILE_ACCESS_HINT_NONE : Z := 0.

Definition is_read_mode (mode : access_mode) : bool :=
  match mode with RETRO_VFS_FILE_ACCESS_READ => true | _ => false end.

(** The mode strings of the branch [!defined(_WIN32)]. *)
Definition MODE_STR_READ_UNBUF : string := "rb".
Definition MODE_STR_WRITE_UNBUF : string := "wb".
Definition MODE_STR_WRITE_PLUS : string := "w+".

(** [MAP_FAILED]: a pointer that is not null and behind which no byte can
    be read. *)
Definition MAP_FAILED : option (list byte) := Some [].

(** The calls of [filestream_open], [filestream_close] and of the helpers
    built on them, with the constants of [<fcntl.h>] and [<sys/stat.h>].
    A path or mode string is handed over as it is.  [c_calloc] says whether
    the block was obtained; [c_malloc] hands out the block with whatever it
    holds; [c_mmap] answers [None] for [MAP_FAILED]. *)
Record libc_files (W : Type) : Type := mkLibcFiles {
  sizeof_RFILE : Z;
  O_RDONLY : Z;
  O_WRONLY : Z;
  O_CREAT  : Z;
  O_TRUNC  : Z;
  O_RDWR   : Z;
  S_IRUSR  : Z;
  S_IWUSR  : Z;
  (* void *calloc(nmemb, size) *)
  c_calloc : W -> Z -> Z -> bool * W;
  (* void *malloc(size) *)
  c_malloc : W -> Z -> option buffer * W;
  (* void free(p), p not null *)
  c_free   : W -> W;
  (* FILE *fopen(path, mode) *)
  c_fopen  : W -> string -> string -> FILEp * W;
  (* setvbuf(fp, buf, _IOFBF, size) *)
  c_setvbuf : W -> FILEp -> option buffer -> Z -> W;
  (* fclose(fp) *)
  c_fclose : W -> FILEp -> W;
  (* int open(path, flags, 0) *)
  c_open   : W -> string -> Z -> Z * W;
  (* close(fd) *)
  c_close  : W -> Z -> W;
  (* mmap(0, len, PROT_READ, MAP_SHARED, fd, 0) *)
  c_mmap   : W -> Z -> Z -> option (list byte) * W;
  (* munmap(p, len) *)
  c_munmap : W -> option (list byte) -> Z -> W;
  (* int remove(path) *)
  c_remove : W -> string -> Z * W;
  (* fprintf(stderr, format, path, strerror(errno)) *)
  c_stderr : W -> string -> string -> W
}.

Arguments sizeof_RFILE {W} _.
Arguments O_RDONLY {W} _.
Arguments O_WRONLY {W} _.
Arguments O_CREAT {W} _.
Arguments O_TRUNC {W} _.
Arguments O_RDWR {W} _.
Arguments S_IRUSR {W} _.
Arguments S_IWUSR {W} _.
Arguments c_calloc {W} _ _ _ _.
Arguments c_malloc {W} _ _ _.
Arguments c_free {W} _ _.
Arguments c_fopen {W} _ _ _ _.
Arguments c_setvbuf {W} _ _ _ _ _.
Arguments c_fclose {W} _ _ _.
Arguments c_open {W} _ _ _ _.
Arguments c_close {W} _ _ _.
Arguments c_mmap {W} _ _ _ _.
Arguments c_munmap {W} _ _ _ _.
Arguments c_remove {W} _ _ _.
Arguments c_stderr {W} _ _ _ _.

Definition set_size (n : Z) (f : RFILE) : RFILE :=
  mkRFILE (error_flag f) (fd f) (hints f) n (mappos f) (mapsize f) (buf f) (fp f) (mapped f).

Definition set_hints (h : Z) (f : RFILE) : RFILE :=
  mkRFILE (error_flag f) (fd f) h (size f) (mappos f) (mapsize f) (buf f) (fp f) (mapped f).

Definition set_fd (d : Z) (f : RFILE) : RFILE :=
  mkRFILE (error_flag f) d (hints f) (size f) (mappos f) (mapsize f) (buf f) (fp f) (mapped f).

Definition set_fp (p : FILEp) (f : RFILE) : RFILE :=
  mkRFILE (error_flag f) (fd f) (hints f) (size f) (mappos f) (mapsize f) (buf f) p (mapped f).

Definition set_buf (b : option buffer) (f : RFILE) : RFILE :=
  mkRFILE (error_flag f) (fd f) (hints f) (size f) (mappos f) (mapsize f) b (fp f) (mapped f).

Definition set_mapsize (n : Z) (f : RFILE) : RFILE :=
  mkRFILE (error_flag f) (fd f) (hints f) (size f) (mappos f) n (buf f) (fp f) (mapped f).

Definition set_mapped (m : option (list byte)) (f : RFILE) : RFILE :=
  mkRFILE (error_flag f) (fd f) (hints f) (size f) (mappos f) (mapsize f) (buf f) (fp f) m.

(** [calloc(1, sizeof *stream)]: every field zero. *)
Definition RFILE_zero : RFILE := mkRFILE false 0 0 0 0 0 None None None.

Section Lifecycle.
Context {W : Type} (P : libc W) (Q : libc_files W).

Definition filestream_set_size (w : W) (stream : option RFILE)
  : outcome (option RFILE * W) :=
  '(_, stream, w) ← filestream_seek P w stream 0 SEEK_SET;
  '(_, stream, w) ← filestream_seek P w stream 0 SEEK_END;
  '(output, stream, w) ← filestream_tell P w stream;
  match stream with
  | None => Fault NullDeref
  | Some f =>
      '(_, stream, w) ← filestream_seek P w (Some (set_size output f)) 0 SEEK_SET;
      Ok (stream, w)
  end.

Definition filestream_close (w : W) (stream : option RFILE) : Z * W :=
  match stream with
  | None => (-1, w)
  | Some f =>
      let w :=
        if is_buffered f then
          match fp f with
          | Some _ => c_fclose Q w (fp f)
          | None => w
          end
        else if has_mmap_hint f then c_munmap Q w (mapped f) (mapsize f)
        else w in
      let w := if 0 <? fd f then c_close Q w (fd f) else w in
      let w := match buf f with Some _ => c_free Q w | None => w end in
      (0, c_free Q w)
  end.

(** The hints as [filestream_open] stores them: the memory-map hint stays
    only in read mode, and brings the unbuffered bit with it. *)
Definition open_hints (mode : access_mode) (caller_hints : Z) : Z :=
  if negb (Z.land caller_hints RETRO_VFS_FILE_ACCESS_HINT_MEMORY_MAP =? 0)
     && is_read_mode mode
  then Z.lor caller_hints RFILE_HINT_UNBUFFERED
  else Z.land caller_hints (Z.lnot RETRO_VFS_FILE_ACCESS_HINT_MEMORY_MAP).

(** The switch on [mode]: the mode string and the flags of [open]. *)
Definition open_mode (mode : access_mode) (h : Z) : option string * Z :=
  let buffered := Z.land h RFILE_HINT_UNBUFFERED =? 0 in
  match mode with
  | RETRO_VFS_FILE_ACCESS_READ =>
      (if buffered then Some MODE_STR_READ_UNBUF else None, O_RDONLY Q)
  | RETRO_VFS_FILE_ACCESS_WRITE =>
      if buffered then (Some MODE_STR_WRITE_UNBUF, 0)
      else (None,
            Z.lor (Z.lor (Z.lor (O_WRONLY Q) (O_CREAT Q)) (O_TRUNC Q))
                  (Z.lor (S_IRUSR Q) (S_IWUSR Q)))
  | RETRO_VFS_FILE_ACCESS_READ_WRITE =>
      if buffered then (Some MODE_STR_WRITE_PLUS, 0)
      else (None, O_RDWR Q)
  | _ => (None, 0)
  end.

(** The block under [if (stream->hints & RETRO_VFS_FILE_ACCESS_HINT_MEMORY_MAP)]
    of [filestream_open]; [None] stands for [goto error]. *)
Definition open_mapping (w : W) (f : RFILE) : outcome (option RFILE * W) :=
  let f := set_mapped None (set_mappos 0 f) in
  '(r, stream, w) ← filestream_seek P w (Some f) 0 SEEK_END;
  match stream with
  | None => Fault NullDeref
  | Some f =>
      let f := set_mapsize (wrap64 r) f in
      if mapsize f =? wrap64 (-1) then
        Ok (None, snd (filestream_close w (Some f)))
      else
        '(stream, w) ← filestream_rewind P w (Some f);
        match stream with
        | None => Fault NullDeref
        | Some f =>
            let '(m, w) := c_mmap Q w (mapsize f) (fd f) in
            match m with
            | Some win => Ok (Some (set_mapped (Some win) f), w)
            | None =>
                Ok (Some (set_hints
                            (Z.land (hints f)
                               (Z.lnot RETRO_VFS_FILE_ACCESS_HINT_MEMORY_MAP))
                            (set_mapped MAP_FAILED f)), w)
            end
        end
  end.

Definition filestream_open (w : W) (path : string) (mode : access_mode)
    (caller_hints : Z) : outcome (option RFILE * W) :=
  let '(got, w) := c_calloc Q w 1 (sizeof_RFILE Q) in
  if negb got then Ok (None, w)
  else
    let f := set_hints (open_hints mode caller_hints) RFILE_zero in
    let '(mode_str, flags) := open_mode mode (hints f) in
    '(stream, w) ←
      match is_buffered f, mode_str with
      | true, Some m =>
          let '(p, w) := c_fopen Q w path m in
          let f := set_fp p f in
          match p with
          | None => Ok (None, snd (filestream_close w (Some f)))
          | Some _ =>
              let '(got, w) := c_calloc Q w 1 16384 in
              let f :=
                set_buf (if got then Some (replicate (Z.to_nat 16384) x00)
                         else None) f in
              Ok (Some f, c_setvbuf Q w (fp f) (buf f) 16384)
          end
      | _, _ =>
          let '(d, w) := c_open Q w path flags in
          let f := set_fd d f in
          if d =? -1 then Ok (None, snd (filestream_close w (Some f)))
          else if has_mmap_hint f then open_mapping w f
          else Ok (Some f, w)
      end;
    match stream with
    | None => Ok (None, w)
    | Some _ => filestream_set_size w stream
    end.

(** The exit under [error:] of [filestream_read_file]. *)
Definition read_file_error (w : W) (file : option RFILE)
    (content_buf : option buffer) (buf len : bool)
  : outcome (Z * option buffer * option Z * W) :=
  let w := match file with
           | Some _ => snd (filestream_close w file)
           | None => w
           end in
  let w := match content_buf with Some _ => c_free Q w | None => w end in
  if buf then Ok (0, None, if len then Some (-1) else None, w)
  else Fault NullDeref.

(** [filestream_read_file(path, buf, len)].  [buf] and [len] say whether
    the two result pointers are there; the results are the return value,
    what [*buf] holds and what [*len] holds. *)
Definition filestream_read_file (w : W) (path : string) (buf len : bool)
  : outcome (Z * option buffer * option Z * W) :=
  '(file, w) ← filestream_open w path RETRO_VFS_FILE_ACCESS_READ
                 RETRO_VFS_FILE_ACCESS_HINT_NONE;
  match file with
  | None =>
      read_file_error (c_stderr Q w "Failed to open %s: %s" path)
        file None buf len
  | Some _ =>
      '(content_buf_size, file, w) ← filestream_get_size w file;
      if content_buf_size <? 0 then read_file_error w file None buf len
      else
        let '(content_buf, w) := c_malloc Q w (wrap64 (content_buf_size + 1)) in
        match content_buf with
        | None => read_file_error w file None buf len
        | Some _ =>
            '(ret, file, content_buf, w) ←
              filestream_read P w file content_buf (wrap64 content_buf_size);
            if ret <? 0 then
              read_file_error (c_stderr Q w "Failed to read %s: %s" path)
                file content_buf buf len
            else
              let w := snd (filestream_close w file) in
              if buf then
                content_buf ← poke content_buf (Z.to_nat ret) x00;
                Ok (1, content_buf, if len then Some ret else None, w)
              else Fault NullDeref
        end
  end.

(** [filestream_delete(path)] through [filestream_delete_impl]: the
    comparison [remove(path) == 0] as an [int]. *)
Definition filestream_delete (w : W) (path : string) : Z * W :=
  let '(r, w) := c_remove Q w path in
  (if r =? 0 then 1 else 0, w).

(** [filestream_write_file(path, data, size)] *)
Definition filestream_write_file (w : W) (path : string)
    (data : option buffer) (size_ : Z) : outcome (bool * W) :=
  '(file, w) ← filestream_open w path RETRO_VFS_FILE_ACCESS_WRITE
                 RETRO_VFS_FILE_ACCESS_HINT_NONE;
  match file with
  | None => Ok (false, w)
  | Some _ =>
      '(ret, file, w) ← filestream_write P w file data (wrap64 size_);
      let w := snd (filestream_close w file) in
      Ok (ret =? size_, w)
  end.

End Lifecycle.

(* ================================================================== *)
(** ** The handles a caller can hold *)

(** [struct RFILE] is private to the file: a caller holds what
    [filestream_open] returned, as the operations on it have left it, and
    these keep the fields fixed at open time ([same_strategy]) as they
    are.  [opened] takes in every handle with the open-time fields of a
    handle that some call of [filestream_open] has returned. *)
Definition opened {W : Type} (P : libc W) (Q : libc_files W) (f : RFILE) : Prop :=
  exists w path mode caller_hints g w',
    filestream_open P Q w path mode caller_hints = Ok (Some g, w')
    /\ same_strategy g f.

(* ================================================================== *)
(** ** Formatted output *)

(** [int]: the two's complement reading of the low 32 bits. *)
Definition sint32 (z : Z) : Z := (z + 2 ^ 31) mod 2 ^ 32 - 2 ^ 31.

(** [static char buffer[8 * 1024]] of [filestream_vprintf], as the program
    starts. *)
Definition vprintf_buffer : buffer := replicate (Z.to_nat 8192) x00.

Section Printf.
Context {W : Type} (P : libc W).

(** [int vsprintf(buffer, format, args)]: its result and the characters it
    stored, terminator included. *)
Variable c_vsprintf : W -> string -> list Z -> Z * list byte * W.

(** [filestream_vprintf], and with it [filestream_printf], which hands its
    arguments on.  The static buffer goes in and comes out. *)
Definition filestream_vprintf (w : W) (stream : option RFILE)
    (buffer_ : buffer) (format : string) (args : list Z)
  : outcome (Z * option RFILE * buffer * W) :=
  let '(num_chars, out, w) := c_vsprintf w format args in
  buffer_ ← store buffer_ out;
  if num_chars <? 0 then Ok (-1, stream, buffer_, w)
  else if num_chars =? 0 then Ok (0, stream, buffer_, w)
  else
    '(r, stream, w) ← filestream_write P w stream (Some buffer_) num_chars;
    Ok (sint32 r, stream, buffer_, w).

Definition filestream_printf := filestream_vprintf.

End Printf.

(* ================================================================== *)
(** ** A file system under the POSIX instance *)

(** The platform of [filestream_open] and [filestream_close] on Linux
    (x86-64, glibc): the open descriptors and streams of [Posix], the files
    they stand for, the heap, and what went to [stderr].  The constants are
    those of [<fcntl.h>] and [<sys/stat.h>] there.  The process may do
    anything to any file (it runs as root), so the permission bits of a file
    play no part.  What is written through a descriptor is in the file at
    once; what is written through a stream is in the file when the stream
    is flushed or closed. *)
Module Linux.

Record world : Type := mkWorld {
  io          : Posix.world;             (* open descriptors and streams *)
  files       : gmap string (list byte); (* the files, by path *)
  fd_path     : gmap Z string;           (* the path of an open descriptor *)
  stream_path : gmap Z string;           (* the path of an open stream *)
  heap        : Z;                       (* blocks allocated and not freed *)
  junk        : byte;                    (* what fresh memory holds *)
  errlog      : list (string * string)   (* the lines sent to stderr *)
}.




































End Linux.


(* ================================================================== *)
(** * Properties *)

(** ** Machine integers *)

Lemma wrap64_small z : 0 <= z < 2 ^ 64 -> wrap64 z = z.
Proof. intros H. unfold wrap64. now apply Z.mod_small. Qed.

Lemma wrap64_range z : 0 <= wrap64 z < 2 ^ 64.
Proof. unfold wrap64. apply Z.mod_pos_bound. lia. Qed.

Lemma wrap64_below z : - 2 ^ 64 <= z < 0 -> wrap64 z = z + 2 ^ 64.
Proof.
  intros H. unfold wrap64.
  symmetry. apply (Z.mod_unique z (2 ^ 64) (-1)); lia.
Qed.

Lemma wrap64_above z : 2 ^ 64 <= z < 2 * 2 ^ 64 -> wrap64 z = z - 2 ^ 64.
Proof.
  intros H. unfold wrap64.
  symmetry. apply (Z.mod_unique z (2 ^ 64) 1); lia.
Qed.

Lemma sint64_small z : - 2 ^ 63 <= z < 2 ^ 63 -> sint64 z = z.
Proof.
  intros H. unfold sint64. rewrite Z.mod_small; lia.
Qed.

Lemma sint64_high z : 2 ^ 63 <= z < 2 ^ 64 -> sint64 z = z - 2 ^ 64.
Proof.
  intros H. unfold sint64.
  rewrite <- (Z.mod_unique (z + 2 ^ 63) (2 ^ 64) 1 (z - 2 ^ 63)); lia.
Qed.

(** ** Buffers *)

Lemma store_fits (dst : buffer) (data : list byte) :
  (length data <= length dst)%nat ->
  store dst data = Ok (data ++ drop (length data) dst).
Proof.
  intros H. unfold store.
  destruct (Nat.leb_spec (length data) (length dst)); [reflexivity | lia].
Qed.

Lemma window_bytes_in (win : list byte) off len :
  off + len <= Z.of_nat (length win) ->
  window_bytes (Some win) off len
  = Ok (take (Z.to_nat len) (drop (Z.to_nat off) win)).
Proof.
  intros H. unfold window_bytes.
  destruct (Z.leb_spec (off + len) (Z.of_nat (length win))); [reflexivity | lia].
Qed.

Lemma window_bytes_length (win : list byte) off len :
  0 <= off -> 0 <= len -> off + len <= Z.of_nat (length win) ->
  length (take (Z.to_nat len) (drop (Z.to_nat off) win)) = Z.to_nat len.
Proof.
  intros Ho Hl H. rewrite length_take, length_drop. lia.
Qed.

(** ** The flag setters leave the dispatch alone *)

Lemma is_buffered_set_error_flag b f :
  is_buffered (set_error_flag b f) = is_buffered f.
Proof. reflexivity. Qed.

Lemma has_mmap_hint_set_error_flag b f :
  has_mmap_hint (set_error_flag b f) = has_mmap_hint f.
Proof. reflexivity. Qed.

Lemma is_mapped_set_error_flag b f :
  is_mapped (set_error_flag b f) = is_mapped f.
Proof. reflexivity. Qed.

Lemma Mapped_is_mapped win f : Mapped win f -> is_mapped f = true.
Proof.
  intros (_ & Hh & Hm & _). unfold is_mapped. now rewrite Hm.
Qed.

(* ================================================================== *)
(** ** Reading through the mapped window *)

Section MappedRead.
Context {W : Type} (P : libc W).

(** The clamp of the mapped read when the sum [mappos + len] does not leave
    the 64-bit range. *)
Lemma clamp_len_no_wrap f len :
  0 <= mappos f <= mapsize f -> mapsize f < 2 ^ 64 ->
  0 <= len -> mappos f + len < 2 ^ 64 ->
  clamp_len f len = Z.min len (mapsize f - mappos f).
Proof.
  intros Hp Hs Hl Hsum. unfold clamp_len.
  rewrite (wrap64_small (mappos f + len)) by lia.
  destruct (Z.ltb_spec (mapsize f) (mappos f + len)).
  - rewrite wrap64_small by lia. lia.
  - lia.
Qed.

(** A mapped read whose length does not wrap the sum: the length is cut
    to what is left of the window, that many bytes are copied from the
    cursor on, and the cursor moves by the same amount. *)
Lemma read_mapped_clamps win f w (dst : buffer) len :
  Mapped win f -> mappos f <= mapsize f -> mapsize f <= SSIZE_MAX ->
  0 <= len -> mappos f + len < 2 ^ 64 ->
  let n := Z.min len (mapsize f - mappos f) in
  n <= Z.of_nat (length dst) ->
  filestream_read P w (Some f) (Some dst) len
  = Ok (n, Some (set_mappos (mappos f + n) f),
        Some (take (Z.to_nat n) (drop (Z.to_nat (mappos f)) win)
              ++ drop (Z.to_nat n) dst), w)
  /\ mappos f + n <= mapsize f.
Proof.
  intros (Hb & Hh & Hm & Hsz & Hpos & Hlt) Hle Hmax Hlen Hsum n Hdst.
  unfold SSIZE_MAX in Hmax.
  split; [| lia].
  unfold filestream_read, filestream_read_impl.
  rewrite Hb, Hh.
  destruct (Z.ltb_spec (mapsize f) (mappos f)); [lia |].
  rewrite clamp_len_no_wrap by lia. fold n.
  rewrite Hm, window_bytes_in by lia. cbn.
  assert (Hn : length (take (Z.to_nat n) (drop (Z.to_nat (mappos f)) win))
               = Z.to_nat n)
    by (apply window_bytes_length; lia).
  rewrite store_fits by lia. cbn.
  rewrite Hn, sint64_small, wrap64_small by lia.
  unfold flag_failure, vfs_error_return_value.
  destruct (Z.eqb_spec n (-1)); [lia | reflexivity].
Qed.

(** C10.  On a handle of the mapped strategy whose cursor lies strictly
    beyond [mapsize], a read of any length, into any buffer, returns -1 and
    sets [error_flag]; nothing else changes: cursor, buffer and world are
    as before, no byte is delivered. *)
Theorem read_beyond_mapsize_fails f w (s : option buffer) len :
  is_buffered f = false -> has_mmap_hint f = true ->
  mapsize f < mappos f ->
  filestream_read P w (Some f) s len
  = Ok (-1, Some (set_error_flag true f), s, w)
  /\ mappos (set_error_flag true f) = mappos f
  /\ error_flag (set_error_flag true f) = true.
Proof.
  intros Hb Hh Hlt. split; [| split; reflexivity].
  unfold filestream_read, filestream_read_impl.
  destruct s as [dst |]; [| reflexivity].
  rewrite Hb, Hh.
  destruct (Z.ltb_spec (mapsize f) (mappos f)); [reflexivity | lia].
Qed.

End MappedRead.

(** The run of the design notes on the window abcde: 3 bytes, then the 2
    that are left of 10 asked for, then none, and the end-of-file test
    answers 1. *)
Example mapped_reads_to_the_end {W : Type} (P : libc W) (w : W) :
  filestream_read P w (Some (mapped_file abcde 0)) (Some (replicate 10 x00)) 3
  = Ok (3, Some (mapped_file abcde 3),
        Some ([x61; x62; x63] ++ replicate 7 x00), w)
  /\ filestream_read P w (Some (mapped_file abcde 3)) (Some (replicate 10 x00)) 10
     = Ok (2, Some (mapped_file abcde 5),
           Some ([x64; x65] ++ replicate 8 x00), w)
  /\ filestream_read P w (Some (mapped_file abcde 5)) (Some (replicate 10 x00)) 10
     = Ok (0, Some (mapped_file abcde 5), Some (replicate 10 x00), w)
  /\ filestream_eof P w (Some (mapped_file abcde 5))
     = Ok (1, Some (mapped_file abcde 5), w).
Proof. repeat split. Qed.

(** A length that wraps the sum, on a state with a window of 5 bytes, which
    no handle has that [filestream_open] returned ([open_mapsize_zero]).
    Cursor 1 and a request of [SIZE_MAX] bytes: [mappos + len] is 0 modulo
    2^64, the test [mappos + len > mapsize] is false, the length is not cut
    (4 bytes are left), and the copy leaves the window. *)
Lemma read_mapped_wrapping_length {W : Type} (P : libc W) (w : W) (dst : buffer) :
  wrap64 (mappos (mapped_file abcde 1) + SIZE_MAX) = 0
  /\ clamp_len (mapped_file abcde 1) SIZE_MAX = SIZE_MAX
  /\ mapsize (mapped_file abcde 1) - mappos (mapped_file abcde 1) = 4
  /\ filestream_read P w (Some (mapped_file abcde 1)) (Some dst) SIZE_MAX
     = Fault OutOfBounds.
Proof. repeat split. Qed.

(** A cursor beyond the window is reached by an absolute seek, and the read
    that follows fails as C10 says. *)
Lemma read_beyond_mapsize_fails_witness :
  filestream_seek Posix.libc_posix world_empty (Some (mapped_file abcde 0)) 6 SEEK_SET
  = Ok (6, Some (mapped_file abcde 6), world_empty)
  /\ (filestream_read Posix.libc_posix world_empty (Some (mapped_file abcde 6))
        (Some [x00]) 1
      = Ok (-1, Some (set_error_flag true (mapped_file abcde 6)), Some [x00],
            world_empty)
      /\ mappos (set_error_flag true (mapped_file abcde 6)) = 6
      /\ error_flag (set_error_flag true (mapped_file abcde 6)) = true).
Proof.
  split; [reflexivity |].
  apply (read_beyond_mapsize_fails Posix.libc_posix (mapped_file abcde 6)
           world_empty (Some [x00]) 1);
    [reflexivity | reflexivity | reflexivity].
Defined.

(* ================================================================== *)
(** ** Seeking on the mapped cursor *)

Section MappedSeek.
Context {W : Type} (P : libc W).

(** Seek and tell take the mapped path when the handle is unbuffered, a
    window is mapped and the hint is set; the lemmas ask no more of the
    handle than that, and that cursor and size are 64-bit values. *)

Lemma tell_impl_mapped f w :
  is_buffered f = false -> is_mapped f = true ->
  filestream_tell_impl P w (Some f) = (sint64 (mappos f), Some f, w).
Proof.
  intros Hb Him. unfold filestream_tell_impl. now rewrite Hb, Him.
Qed.

Ltac seek_mapped Hb Him :=
  unfold filestream_seek_impl; rewrite Hb, Him;
  repeat match goal with
    | |- context [SEEK_CUR =? SEEK_SET] => change (SEEK_CUR =? SEEK_SET) with false
    | |- context [SEEK_CUR =? SEEK_CUR] => change (SEEK_CUR =? SEEK_CUR) with true
    | |- context [SEEK_END =? SEEK_SET] => change (SEEK_END =? SEEK_SET) with false
    | |- context [SEEK_END =? SEEK_CUR] => change (SEEK_END =? SEEK_CUR) with false
    | |- context [SEEK_END =? SEEK_END] => change (SEEK_END =? SEEK_END) with true
    end;
  cbv iota.

(** [SEEK_CUR], rejected: the sum leaves the range of the cursor. *)
Lemma seek_cur_mapped_rejected f w offset :
  is_buffered f = false -> is_mapped f = true ->
  0 <= mappos f < 2 ^ 64 -> - 2 ^ 63 <= offset < 2 ^ 63 ->
  mappos f + offset < 0 \/ 2 ^ 64 <= mappos f + offset ->
  filestream_seek_impl P w (Some f) offset SEEK_CUR = (-1, Some f, w).
Proof.
  intros Hb Him Hpos Hoff Hout. seek_mapped Hb Him.
  destruct Hout as [Hneg | Hbig].
  - rewrite wrap64_below by lia.
    destruct (Z.ltb_spec offset 0); [| lia].
    destruct (Z.ltb_spec (mappos f) (mappos f + offset + 2 ^ 64)); [| lia].
    reflexivity.
  - rewrite wrap64_above by lia.
    destruct (Z.ltb_spec offset 0); [lia |].
    destruct (Z.ltb_spec 0 offset); [| lia].
    destruct (Z.ltb_spec (mappos f + offset - 2 ^ 64) (mappos f)); [| lia].
    reflexivity.
Qed.

(** [SEEK_CUR], accepted: the cursor becomes the sum; the value returned is
    the cursor read as a signed number. *)
Lemma seek_cur_mapped_accepted f w offset :
  is_buffered f = false -> is_mapped f = true ->
  0 <= mappos f < 2 ^ 64 -> - 2 ^ 63 <= offset < 2 ^ 63 ->
  0 <= mappos f + offset < 2 ^ 64 ->
  filestream_seek_impl P w (Some f) offset SEEK_CUR
  = (sint64 (mappos f + offset), Some (set_mappos (mappos f + offset) f), w).
Proof.
  intros Hb Him Hpos Hoff Hin. seek_mapped Hb Him.
  rewrite wrap64_small by lia.
  destruct (Z.ltb_spec offset 0);
    destruct (Z.ltb_spec 0 offset);
    destruct (Z.ltb_spec (mappos f) (mappos f + offset));
    destruct (Z.ltb_spec (mappos f + offset) (mappos f));
    try lia; reflexivity.
Qed.

(** [SEEK_END] with a negative offset that stays inside the file: the
    unsigned sum is below [mapsize], which the code takes for a wrap. *)
Lemma seek_end_mapped_backwards_rejected f w offset :
  is_buffered f = false -> is_mapped f = true ->
  0 <= mapsize f < 2 ^ 64 ->
  offset < 0 -> 0 <= mapsize f + offset ->
  filestream_seek P w (Some f) offset SEEK_END
  = Ok (-1, Some (set_error_flag true f), w).
Proof.
  intros Hb Him Hsz Hneg Hin.
  unfold filestream_seek. seek_mapped Hb Him.
  rewrite wrap64_small by lia.
  destruct (Z.ltb_spec (mapsize f + offset) (mapsize f)); [| lia].
  reflexivity.
Qed.

(** [SEEK_END] with an offset that goes below zero: the unsigned sum is
    above [mapsize], the seek is accepted and the cursor is the sum plus
    2^64. *)
Lemma seek_end_mapped_below_zero_accepted f w offset :
  is_buffered f = false -> is_mapped f = true ->
  0 <= mapsize f < 2 ^ 64 ->
  - 2 ^ 63 <= offset -> mapsize f + offset < 0 ->
  filestream_seek_impl P w (Some f) offset SEEK_END
  = (sint64 (mapsize f + offset + 2 ^ 64),
     Some (set_mappos (mapsize f + offset + 2 ^ 64) f), w).
Proof.
  intros Hb Him Hsz Hoff Hneg. seek_mapped Hb Him.
  rewrite wrap64_below by lia.
  destruct (Z.ltb_spec (mapsize f + offset + 2 ^ 64) (mapsize f)); [lia |].
  reflexivity.
Qed.


End MappedSeek.

(* ================================================================== *)
(** ** Seek and tell on the POSIX instance *)

Lemma file_seek_set_zero (o : Posix.ofile) :
  Posix.file_seek o 0 SEEK_SET
  = Some (Posix.mkOfile (Posix.content o) 0 (Posix.acc o)).
Proof. reflexivity. Qed.

Lemma lookup_stream_with_stream w d o :
  Posix.lookup_stream (Posix.with_stream w d o) (Some d) = Some (d, o).
Proof.
  unfold Posix.lookup_stream, Posix.with_stream. cbn.
  now rewrite lookup_insert_eq.
Qed.

Lemma lookup_fd_with_fd w d o :
  Posix.fds (Posix.with_fd w d o) !! d = Some o.
Proof. unfold Posix.with_fd. cbn. now rewrite lookup_insert_eq. Qed.

Lemma lookup_stream_Some w x d o :
  Posix.lookup_stream w x = Some (d, o) ->
  x = Some d /\ Posix.streams w !! d = Some o.
Proof.
  unfold Posix.lookup_stream. destruct x as [d' |]; [| discriminate].
  destruct (Posix.streams w !! d') eqn:E; [| discriminate].
  intros [= <- <-]. auto.
Qed.

Lemma flag_failure_other r stream :
  r <> -1 -> flag_failure r stream = Ok stream.
Proof.
  intros H. unfold flag_failure, vfs_error_return_value.
  destruct (Z.eqb_spec r (-1)); [contradiction | reflexivity].
Qed.

(* ================================================================== *)
(** ** What seek and tell return *)

(** On a descriptor handle, tell returns 0 or -1 whatever [lseek] reports. *)
Lemma tell_descriptor_result {W : Type} (P : libc W) w f :
  is_buffered f = false -> is_mapped f = false ->
  exists w', filestream_tell_impl P w (Some f) = (0, Some f, w')
             \/ filestream_tell_impl P w (Some f) = (-1, Some f, w').
Proof.
  intros Hb Him. unfold filestream_tell_impl. rewrite Hb, Him.
  destruct (c_lseek P w (fd f) 0 SEEK_CUR) as [r w'].
  exists w'. destruct (r <? 0); auto.
Qed.

(** On a descriptor handle, seek returns 0 or -1 as well. *)
Lemma seek_descriptor_result {W : Type} (P : libc W) w f offset whence :
  is_buffered f = false -> is_mapped f = false ->
  exists w', filestream_seek_impl P w (Some f) offset whence = (0, Some f, w')
             \/ filestream_seek_impl P w (Some f) offset whence = (-1, Some f, w').
Proof.
  intros Hb Him. unfold filestream_seek_impl. rewrite Hb, Him.
  destruct (c_lseek P w (fd f) offset whence) as [r w'].
  exists w'. destruct (r <? 0); auto.
Qed.

(** [filestream_open] sizes the mapping with
    [stream->mapsize = filestream_seek(stream, 0, SEEK_END)] while
    [stream->mapped] is still null: the seek takes the descriptor path and
    the value stored is 0, or -1 on failure, never the size of the file. *)
Lemma mapsize_probe {W : Type} (P : libc W) w f :
  is_buffered f = false -> mapped f = None ->
  exists w',
    filestream_seek P w (Some f) 0 SEEK_END = Ok (0, Some f, w')
    \/ filestream_seek P w (Some f) 0 SEEK_END
       = Ok (-1, Some (set_error_flag true f), w').
Proof.
  intros Hb Hm.
  assert (Him : is_mapped f = false) by (unfold is_mapped; now rewrite Hm).
  destruct (seek_descriptor_result P w f 0 SEEK_END Hb Him) as [w' [H | H]];
    exists w'; unfold filestream_seek; rewrite H; auto.
Qed.

(** C5 on a file of 5 bytes.  Descriptor handle: [SEEK_END] by 0 succeeds,
    the descriptor is at offset 5, the seek returns 0 and so does the tell
    that follows.  Buffered handle: the same seek returns the status 0 of
    [fseek]; tell returns 5. *)
Theorem seek_tell_return_zero :
  filestream_seek Posix.libc_posix
    (world_fd 3 (Posix.mkOfile abcde 0 Posix.O_RDONLY))
    (Some (fd_file 3 5)) 0 SEEK_END
  = Ok (0, Some (fd_file 3 5), world_fd 3 (Posix.mkOfile abcde 5 Posix.O_RDONLY))
  /\ position (world_fd 3 (Posix.mkOfile abcde 5 Posix.O_RDONLY)) (fd_file 3 5)
     = Some 5
  /\ filestream_tell Posix.libc_posix
       (world_fd 3 (Posix.mkOfile abcde 5 Posix.O_RDONLY)) (Some (fd_file 3 5))
     = Ok (0, Some (fd_file 3 5), world_fd 3 (Posix.mkOfile abcde 5 Posix.O_RDONLY))
  /\ filestream_seek Posix.libc_posix
       (world_stream 7 (Posix.mkOfile abcde 0 Posix.O_RDONLY))
       (Some (stream_file 7 5)) 0 SEEK_END
     = Ok (0, Some (stream_file 7 5),
           world_stream 7 (Posix.mkOfile abcde 5 Posix.O_RDONLY))
  /\ filestream_tell Posix.libc_posix
       (world_stream 7 (Posix.mkOfile abcde 5 Posix.O_RDONLY))
       (Some (stream_file 7 5))
     = Ok (5, Some (stream_file 7 5),
           world_stream 7 (Posix.mkOfile abcde 5 Posix.O_RDONLY)).
Proof. repeat split. Qed.

(* ================================================================== *)
(** ** One character *)

(** C6 on a signed [char].  A buffered handle on a file that holds the one
    byte 0xFF: the byte is read (the stream moves from offset 0 to 1) and
    comes back as -1, which is [EOF]: the same value as at the end of the
    file, where nothing is read.  The same through a mapped window.  With an
    unsigned [char] the byte comes back as 255. *)
Theorem getc_byte_ff_is_eof (w : Posix.world) :
  filestream_getc Posix.libc_posix
    (world_stream 7 (Posix.mkOfile [xff] 0 Posix.O_RDONLY)) (Some (stream_file 7 1))
  = Ok (EOF, Some (stream_file 7 1),
        world_stream 7 (Posix.mkOfile [xff] 1 Posix.O_RDONLY))
  /\ filestream_getc Posix.libc_posix
       (world_stream 7 (Posix.mkOfile [xff] 1 Posix.O_RDONLY)) (Some (stream_file 7 1))
     = Ok (EOF, Some (stream_file 7 1),
           world_stream 7 (Posix.mkOfile [xff] 1 Posix.O_RDONLY))
  /\ filestream_getc Posix.libc_posix w (Some (mapped_file [xff] 0))
     = Ok (EOF, Some (mapped_file [xff] 1), w)
  /\ filestream_getc Posix.libc_posix w (Some (mapped_file [xff] 1))
     = Ok (EOF, Some (mapped_file [xff] 1), w)
  /\ filestream_getc Posix.libc_posix_uchar w (Some (mapped_file [xff] 0))
     = Ok (255, Some (mapped_file [xff] 1), w).
Proof. repeat split. Qed.

(** On any platform with a signed [char]: when the read delivers the byte
    0xFF, the caller of [filestream_getc] sees [EOF]. *)
Lemma getc_signed_ff {W : Type} (P : libc W) w f stream' w' :
  char_signed P = true ->
  filestream_read P w (Some f) (Some [x00]) 1 = Ok (1, stream', Some [xff], w') ->
  filestream_getc P w (Some f) = Ok (EOF, stream', w').
Proof.
  intros Hs Hr. unfold filestream_getc. rewrite Hr. cbn. now rewrite Hs.
Qed.

(** With an unsigned [char] a byte that was read comes back as its value,
    which is not [EOF]. *)
Lemma getc_unsigned_byte {W : Type} (P : libc W) w f stream' b rest w' :
  char_signed P = false ->
  filestream_read P w (Some f) (Some [x00]) 1 = Ok (1, stream', Some (b :: rest), w') ->
  filestream_getc P w (Some f) = Ok (byte_val b, stream', w')
  /\ 0 <= byte_val b <= 255.
Proof.
  intros Hs Hr. unfold filestream_getc. rewrite Hr. cbn. rewrite Hs.
  split; [reflexivity |]. destruct b; vm_compute; split; intros H; discriminate H.
Qed.

(* ================================================================== *)
(** ** Null arguments *)

(** The wrappers store into [stream->error_flag] after the callback has
    answered -1 for a null handle. *)
Lemma read_null_handle {W : Type} (P : libc W) w s len :
  filestream_read P w None s len = Fault NullDeref.
Proof. reflexivity. Qed.

Lemma write_null_handle {W : Type} (P : libc W) w s len :
  filestream_write P w None s len = Fault NullDeref.
Proof. reflexivity. Qed.

(** A read with a null buffer returns -1 and calls nothing of the
    platform: the world and the buffer argument are as before, and the
    handle differs in [error_flag] only, which is set. *)
Lemma read_null_buffer {W : Type} (P : libc W) (w : W) (f : RFILE) len :
  filestream_read P w (Some f) None len
  = Ok (-1, Some (set_error_flag true f), None, w).
Proof. reflexivity. Qed.

(** A write does not test the buffer: on a stream the null pointer goes to
    [fwrite], which copies from it. *)
Example write_null_buffer :
  filestream_write Posix.libc_posix
    (world_stream 7 (Posix.mkOfile [] 0 Posix.O_RDWR))
    (Some (stream_file 7 0)) None 1
  = Fault NullDeref.
Proof. reflexivity. Qed.

(* ================================================================== *)
(** ** The error flag *)

Section ErrorFlag.
Context {W : Type} (P : libc W).

Ltac open_ops :=
  cbv beta iota zeta delta
    [run_op int_result filestream_read filestream_write filestream_seek
     filestream_tell filestream_get_size filestream_flush filestream_eof
     filestream_getc filestream_rewind filestream_putc filestream_error
     filestream_read_impl filestream_write_impl filestream_seek_impl
     filestream_tell_impl filestream_flush_impl filestream_file_size_impl
     flag_failure vfs_error_return_value mbind outcome_bind obind
     set_error_flag set_mappos is_buffered has_mmap_hint is_mapped clamp_len
     error_flag fd hints size mappos mapsize buf fp mapped
     forget_flag option_map] in *.

Ltac split_cases :=
  repeat (match goal with
          | H : context [match ?x with _ => _ end] |- _ => destruct x eqn:?
          | |- context [match ?x with _ => _ end] => destruct x eqn:?
          end; open_ops; simplify_eq).

(** A handle stays a handle through [filestream_getc], and a set flag
    stays set. *)
Lemma getc_keeps_flag w f c stream' w' :
  filestream_getc P w (Some f) = Ok (c, stream', w') ->
  exists g, stream' = Some g /\ (error_flag f = true -> error_flag g = true).
Proof.
  intros H. open_ops. split_cases; eauto.
Qed.

Lemma gets_loop_keeps_flag n : forall w f s p c p' c' s' stream' w',
  gets_loop P n w (Some f) s p c = Ok (p', c', s', stream', w') ->
  exists g, stream' = Some g /\ (error_flag f = true -> error_flag g = true).
Proof.
  induction n as [| n IH]; intros w f s p c p' c' s' stream' w' H.
  - cbn in H. simplify_eq. eauto.
  - cbn [gets_loop] in H.
    destruct (filestream_getc P w (Some f)) as [[[c1 st1] w1] |] eqn:Hg;
      [| discriminate H].
    destruct (getc_keeps_flag _ _ _ _ _ Hg) as (g & -> & Hflag).
    cbn in H.
    destruct (c1 =? EOF).
    + simplify_eq. eauto.
    + destruct (poke s p (int_to_char c1)) as [s1 |]; [| discriminate H].
      cbn in H. destruct (c1 =? 10).
      * simplify_eq. eauto.
      * destruct (IH _ _ _ _ _ _ _ _ _ _ H) as (g' & -> & Hflag').
        eauto.
Qed.

(** Every operation but rewind leaves a set flag set. *)
Lemma op_keeps_flag (o : op) (w : W) (f : RFILE) r f' w' :
  is_rewind o = false -> error_flag f = true ->
  run_op P o w f = Ok (r, Some f', w') ->
  error_flag f' = true.
Proof.
  intros Hc Hf Hr. destruct o; try discriminate Hc; clear Hc.
  10: {
    unfold run_op, filestream_gets in Hr.
    destruct (gets_loop P _ w (Some f) s 0%nat 0)
      as [[[[[p c] s1] st1] w1] |] eqn:Hl; [| discriminate Hr].
    destruct (gets_loop_keeps_flag _ _ _ _ _ _ _ _ _ _ _ Hl) as (g & -> & Hg).
    cbn in Hr. destruct (poke s1 p x00); cbn in Hr; simplify_eq. auto. }
  all: open_ops.
  all: split_cases; try reflexivity; try assumption.
Qed.

(** The operations that compare their result with the failure value set
    the flag when they return it. *)
Lemma op_sets_flag (o : op) (w : W) (f : RFILE) f' w' :
  compares_result o = true ->
  run_op P o w f = Ok (RInt (-1), Some f', w') ->
  error_flag f' = true.
Proof.
  intros Hc Hr. destruct o; try discriminate Hc; clear Hc.
  all: open_ops.
  all: split_cases; try reflexivity; try lia.
Qed.

(** Rewind returns, and the flag is clear afterwards. *)
Lemma rewind_clears_flag (w : W) (f : RFILE) :
  exists f' w', run_op P OpRewind w f = Ok (RVoid, Some f', w')
                /\ error_flag f' = false.
Proof.
  open_ops. split_cases; eauto.
Qed.

Lemma getc_ignores_flag w f b :
  match filestream_getc P w (Some (set_error_flag b f)),
        filestream_getc P w (Some f) with
  | Ok (c1, st1, w1), Ok (c2, st2, w2) =>
      c1 = c2 /\ w1 = w2 /\
      exists g b', st2 = Some g /\ st1 = Some (set_error_flag b' g)
  | Fault k1, Fault k2 => k1 = k2
  | _, _ => False
  end.
Proof.
  destruct f as [e d h sz mp ms bf fp0 mw].
  open_ops.
  split_cases; try (repeat split; do 2 eexists; split; reflexivity).
Qed.

Lemma gets_loop_ignores_flag n : forall w f b s p c,
  match gets_loop P n w (Some (set_error_flag b f)) s p c,
        gets_loop P n w (Some f) s p c with
  | Ok (p1, c1, s1, st1, w1), Ok (p2, c2, s2, st2, w2) =>
      p1 = p2 /\ c1 = c2 /\ s1 = s2 /\ w1 = w2 /\
      option_map (set_error_flag false) st1 = option_map (set_error_flag false) st2
  | Fault k1, Fault k2 => k1 = k2
  | _, _ => False
  end.
Proof.
  induction n as [| n IH]; intros w f b s p c.
  - cbn. repeat split.
  - cbn [gets_loop].
    pose proof (getc_ignores_flag w f b) as Hg.
    destruct (filestream_getc P w (Some (set_error_flag b f)))
      as [[[c1 st1] w1] |];
      destruct (filestream_getc P w (Some f)) as [[[c2 st2] w2] |];
      try contradiction.
    + destruct Hg as (-> & -> & g & b' & -> & ->). cbn.
      destruct (c2 =? EOF); [repeat split |].
      destruct (poke s p (int_to_char c2)) as [s1 |]; cbn; [| reflexivity].
      destruct (c2 =? 10); [repeat split |].
      apply IH.
    + cbn. assumption.
Qed.

(** No operation but the query of the flag itself looks at the flag: run
    on two handles that differ in the flag only, it returns the same value,
    leaves the same world, and the handles still differ in the flag only. *)
Lemma op_ignores_flag (o : op) (w : W) (f : RFILE) b :
  is_error_query o = false ->
  forget_flag (run_op P o w (set_error_flag b f)) = forget_flag (run_op P o w f).
Proof.
  intros Hq. destruct o; try discriminate Hq; clear Hq.
  9: {
    unfold run_op, filestream_gets.
    pose proof (gets_loop_ignores_flag (Z.to_nat (wrap64 (len - 1))) w f b s 0%nat 0)
      as Hl.
    destruct (gets_loop P _ w (Some (set_error_flag b f)) s 0%nat 0)
      as [[[[[p1 c1] s1] st1] w1] |];
      destruct (gets_loop P _ w (Some f) s 0%nat 0)
        as [[[[[p2 c2] s2] st2] w2] |];
      try contradiction.
    - destruct Hl as (-> & -> & -> & -> & Hst). cbn.
      destruct (poke s2 p2 x00); cbn; [| reflexivity].
      now rewrite Hst.
    - cbn. now rewrite Hl. }
  all: destruct f as [e d h sz mp ms bf fp0 mw].
  all: open_ops.
  all: split_cases; try reflexivity.
Qed.

(** A handle stays a handle through every operation. *)
Lemma op_keeps_handle (o : op) (w : W) (f : RFILE) r stream' w' :
  run_op P o w f = Ok (r, stream', w') -> exists f', stream' = Some f'.
Proof.
  intros Hr. destruct o.
  10: {
    unfold run_op, filestream_gets in Hr.
    destruct (gets_loop P _ w (Some f) s 0%nat 0)
      as [[[[[p c] s1] st1] w1] |] eqn:Hl; [| discriminate Hr].
    destruct (gets_loop_keeps_flag _ _ _ _ _ _ _ _ _ _ _ Hl) as (g & -> & Hg).
    cbn in Hr. destruct (poke s1 p x00); cbn in Hr; simplify_eq. eauto. }
  all: open_ops.
  all: split_cases; eauto.
Qed.

(** C8, as the code has it.  For every operation [o] on a handle [f]:
    - if [o] is one of read, write, seek, tell, size, flush and returns -1,
      the flag is set afterwards;
    - if [o] is not rewind and the flag was set, it is still set;
    - rewind returns and leaves the flag clear;
    - unless [o] is the query of the flag, [o] does the same whether the
      flag is set or not: same value, same world, same handle up to the
      flag;
    - the handle is still there afterwards. *)
Theorem error_flag_bookkeeping (o : op) (w : W) (f : RFILE) :
  (forall f' w',
      compares_result o = true ->
      run_op P o w f = Ok (RInt (-1), Some f', w') -> error_flag f' = true)
  /\ (forall r f' w',
        is_rewind o = false -> error_flag f = true ->
        run_op P o w f = Ok (r, Some f', w') -> error_flag f' = true)
  /\ (exists f' w',
        run_op P OpRewind w f = Ok (RVoid, Some f', w') /\ error_flag f' = false)
  /\ (forall b,
        is_error_query o = false ->
        forget_flag (run_op P o w (set_error_flag b f))
        = forget_flag (run_op P o w f))
  /\ (forall r stream' w',
        run_op P o w f = Ok (r, stream', w') -> exists f', stream' = Some f').
Proof.
  repeat split.
  - intros f' w'. apply op_sets_flag.
  - intros r f' w'. apply op_keeps_flag.
  - apply rewind_clears_flag.
  - intros b. apply op_ignores_flag.
  - intros r stream' w'. apply op_keeps_handle.
Qed.

End ErrorFlag.

(** A rejected seek on a mapped handle sets the flag, a read keeps it,
    rewind clears it. *)
Lemma error_flag_bookkeeping_witness :
  run_op Posix.libc_posix (OpSeek (-1) SEEK_SET) world_empty (mapped_file abcde 0)
  = Ok (RInt (-1), Some (set_error_flag true (mapped_file abcde 0)), world_empty)
  /\ error_flag (set_error_flag true (mapped_file abcde 0)) = true
  /\ (exists f' w',
        run_op Posix.libc_posix OpRewind world_empty
          (set_error_flag true (mapped_file abcde 0))
        = Ok (RVoid, Some f', w') /\ error_flag f' = false).
Proof.
  split; [reflexivity |]. split.
  - apply (proj1 (error_flag_bookkeeping Posix.libc_posix (OpSeek (-1) SEEK_SET)
                    world_empty (mapped_file abcde 0))
             (set_error_flag true (mapped_file abcde 0)) world_empty);
      reflexivity.
  - apply (proj1 (proj2 (proj2 (error_flag_bookkeeping Posix.libc_posix OpRewind
                                  world_empty
                                  (set_error_flag true (mapped_file abcde 0)))))).
Defined.

(** C8 as stated fails for the character helpers.  At the end of the
    file [filestream_getc] returns [EOF], and [filestream_putc] returns
    [EOF] on a stream that is not open for writing; [EOF] is the failure
    value -1, and the flag stays clear. *)
Lemma error_flag_counterexample :
  EOF = vfs_error_return_value
  /\ run_op Posix.libc_posix OpGetc
       (world_stream 7 (Posix.mkOfile abcde 5 Posix.O_RDONLY)) (stream_file 7 5)
     = Ok (RInt (-1), Some (stream_file 7 5),
           world_stream 7 (Posix.mkOfile abcde 5 Posix.O_RDONLY))
  /\ run_op Posix.libc_posix OpGetc world_empty (mapped_file abcde 5)
     = Ok (RInt (-1), Some (mapped_file abcde 5), world_empty)
  /\ run_op Posix.libc_posix (OpPutc 65)
       (world_stream 7 (Posix.mkOfile abcde 0 Posix.O_RDONLY)) (stream_file 7 5)
     = Ok (RInt (-1), Some (stream_file 7 5),
           world_stream 7 (Posix.mkOfile abcde 0 Posix.O_RDONLY))
  /\ error_flag (mapped_file abcde 5) = false
  /\ error_flag (stream_file 7 5) = false.
Proof. repeat split. Qed.

(* ================================================================== *)
(** ** One line *)

Lemma char_to_int_range s b : -128 <= char_to_int s b <= 255.
Proof. destruct s, b; vm_compute; split; intros H; discriminate H. Qed.

Lemma int_to_char_char_to_int s b : int_to_char (char_to_int s b) = b.
Proof. destruct s, b; reflexivity. Qed.

Lemma char_to_int_newline s b : char_to_int s b = 10 <-> b = x0a.
Proof.
  split.
  - intros H. rewrite <- (int_to_char_char_to_int s b), H. reflexivity.
  - intros ->. destruct s; reflexivity.
Qed.

Lemma handle_ok_set_error_flag b f : handle_ok f -> handle_ok (set_error_flag b f).
Proof. intros H. exact H. Qed.

Lemma poke_in (d : buffer) (i : nat) b :
  (i < length d)%nat -> poke (Some d) i b = Ok (Some (<[i := b]> d)).
Proof.
  intros H. unfold poke.
  destruct (Nat.ltb_spec i (length d)); [reflexivity | lia].
Qed.

Section Line.
Context {W : Type} (P : libc W).
Hypothesis Hbounded : reads_bounded P.

(** What the one-byte read of [filestream_getc] leaves in [c]. *)
Lemma store_char (data : list byte) :
  Z.of_nat (length data) <= 1 ->
  exists b, store [x00] data = Ok [b].
Proof.
  intros H. destruct data as [| b [| b' data]]; cbn in H; try lia.
  - exists x00. reflexivity.
  - exists b. reflexivity.
Qed.

(** [filestream_getc] returns on every well-formed handle: [EOF] or the
    value of a [char]. *)
Lemma getc_returns w f :
  handle_ok f ->
  exists c f' w',
    filestream_getc P w (Some f) = Ok (c, Some f', w')
    /\ handle_ok f'
    /\ (c = EOF \/ exists b, c = char_to_int (char_signed P) b).
Proof using Hbounded.
  intros Hok.
  assert (Hflag : forall r (g : RFILE), handle_ok g ->
            exists g', flag_failure r (Some g) = Ok (Some g') /\ handle_ok g').
  { intros r g Hg. unfold flag_failure.
    destruct (r =? vfs_error_return_value); eauto using handle_ok_set_error_flag. }
  unfold filestream_getc, filestream_read, filestream_read_impl.
  destruct (is_buffered f) eqn:Hb; [| destruct (has_mmap_hint f) eqn:Hh].
  - destruct (c_fread P w (fp f) 1) as [[n data] w'] eqn:Hr.
    destruct (Hbounded w 1 ltac:(lia)) as [Hlen _].
    specialize (Hlen (fp f)). rewrite Hr in Hlen. cbn in Hlen.
    destruct (store_char data Hlen) as [b ->]. cbn.
    destruct (Hflag (sint64 n) f Hok) as (g' & -> & Hg'). cbn.
    exists (if sint64 n =? 1 then char_to_int (char_signed P) b else EOF), g', w'.
    destruct (sint64 n =? 1); eauto 6.
  - destruct (Hok Hb Hh) as (win & Hw & Hsz & Hpos & Hmax).
    destruct (Z.ltb_spec (mapsize f) (mappos f)).
    + cbn. destruct (Hflag (-1) f Hok) as (g' & Hfl & Hg').
      change (flag_failure (-1) (Some f)) with (Ok (Some (set_error_flag true f))).
      cbn. exists EOF, (set_error_flag true f), w. auto.
    + unfold clamp_len. rewrite (wrap64_small (mappos f + 1)) by lia.
      rewrite Hw.
      assert (Hnew : forall n, 0 <= n ->
                handle_ok (set_mappos (wrap64 (mappos f + n)) f)).
      { intros n Hn Hb' Hh'. exists win.
        cbn. repeat split; try assumption. apply wrap64_range. }
      destruct (Z.ltb_spec (mapsize f) (mappos f + 1)).
      * rewrite wrap64_small by lia.
        rewrite window_bytes_in by lia.
        replace (mapsize f - mappos f) with 0 by lia.
        change (Z.to_nat 0) with 0%nat. rewrite take_0.
        change (store [x00] []) with (Ok [x00]).
        change (sint64 0) with 0. cbn.
        exists EOF, (set_mappos (wrap64 (mappos f + 0)) f), w.
        split; [reflexivity |]. split; [apply Hnew; lia | auto].
      * rewrite window_bytes_in by lia.
        assert (Hl : length (take (Z.to_nat 1) (drop (Z.to_nat (mappos f)) win))
                     = 1%nat).
        { rewrite length_take, length_drop. lia. }
        destruct (take (Z.to_nat 1) (drop (Z.to_nat (mappos f)) win))
          as [| b [| ? ?]]; try discriminate Hl.
        change (store [x00] [b]) with (Ok [b]).
        change (sint64 1) with 1. cbn.
        exists (char_to_int (char_signed P) b),
          (set_mappos (wrap64 (mappos f + 1)) f), w.
        split; [reflexivity |]. split; [apply Hnew; lia | eauto].
  - destruct (c_read P w (fd f) 1) as [[n data] w'] eqn:Hr.
    destruct (Hbounded w 1 ltac:(lia)) as [_ Hlen].
    specialize (Hlen (fd f)). rewrite Hr in Hlen. cbn in Hlen.
    destruct (store_char data Hlen) as [b ->]. cbn.
    destruct (Hflag n f Hok) as (g' & -> & Hg'). cbn.
    exists (if n =? 1 then char_to_int (char_signed P) b else EOF), g', w'.
    destruct (n =? 1); eauto 6.
Qed.

Lemma take_shorter (a b : list byte) (p : nat) :
  take (S p) a = take (S p) b -> take p a = take p b.
Proof.
  intros H.
  assert (Hcut : forall x : list byte, take p x = take p (take (S p) x)).
  { intros x. rewrite take_take. f_equal. lia. }
  rewrite (Hcut a), (Hcut b), H. reflexivity.
Qed.

Lemma getc_seq_length n : forall w o cs st wm,
  getc_seq P n w o = Ok (cs, st, wm) -> length cs = n.
Proof.
  induction n as [| n IH]; intros w o cs st wm Hseq.
  - cbn in Hseq. now injection Hseq as <- _ _.
  - cbn [getc_seq] in Hseq.
    destruct (filestream_getc P w o) as [[[c1 o1] w1] |]; [| discriminate Hseq].
    cbn [mbind outcome_bind obind] in Hseq.
    destruct (getc_seq P n w1 o1) as [[[cs' o2] w2] |] eqn:Hs;
      [| discriminate Hseq].
    cbn [mbind outcome_bind obind] in Hseq. injection Hseq as <- _ _.
    cbn. f_equal. eapply IH. exact Hs.
Qed.

(** The loop of [filestream_gets], started at offset [p] with room for
    [n] more characters and the terminator. *)
Lemma gets_loop_spec n : forall w f (d : list byte) p c,
  handle_ok f -> (p + n < length d)%nat -> c <> EOF ->
  exists p' c' d' f' w',
    gets_loop P n w (Some f) (Some d) p c = Ok (p', c', Some d', Some f', w')
    /\ handle_ok f'
    /\ (p <= p' <= p + n)%nat
    /\ length d' = length d
    /\ take p d' = take p d
    /\ drop p' d' = drop p' d
    /\ (forall i, (p <= i)%nat -> (i + 1 < p')%nat -> d' !! i <> Some x0a)
    /\ (c' = EOF
        \/ ((p < p')%nat /\ c' = 10 /\ d' !! (p' - 1)%nat = Some x0a)
        \/ (p' = (p + n)%nat /\ c' <> EOF))
    /\ (exists cs st wm,
          getc_seq P (p' - p) w (Some f) = Ok (cs, st, wm)
          /\ (forall i c0, cs !! i = Some c0 ->
                c0 <> EOF /\ d' !! (p + i)%nat = Some (int_to_char c0))
          /\ (if c' =? EOF
              then filestream_getc P wm st = Ok (EOF, Some f', w')
              else st = Some f' /\ wm = w')).
Proof using Hbounded.
  induction n as [| n IH]; intros w f d p c Hok Hroom Hc.
  - exists p, c, d, f, w. cbn [gets_loop].
    split; [reflexivity |]. split; [assumption |]. split; [lia |].
    split; [reflexivity |]. split; [reflexivity |]. split; [reflexivity |].
    split; [intros i Hi Hi'; lia |]. split; [auto |].
    exists [], (Some f), w. rewrite Nat.sub_diag.
    split; [reflexivity |]. split; [intros i c0 Hi; discriminate Hi |].
    destruct (Z.eqb_spec c EOF); [contradiction | auto].
  - cbn [gets_loop].
    destruct (getc_returns w f Hok) as (c1 & f1 & w1 & Hgetc & Hok1 & Hc1).
    rewrite Hgetc. cbn [mbind outcome_bind obind].
    destruct (Z.eqb_spec c1 EOF) as [-> | Hne].
    + exists p, EOF, d, f1, w1.
      split; [reflexivity |]. split; [assumption |]. split; [lia |].
      split; [reflexivity |]. split; [reflexivity |]. split; [reflexivity |].
      split; [intros i Hi Hi'; lia |]. split; [auto |].
      exists [], (Some f), w. rewrite Nat.sub_diag.
      split; [reflexivity |]. split; [intros i c0 Hi; discriminate Hi |].
      exact Hgetc.
    + destruct Hc1 as [? | [b Hcb]]; [contradiction |]. subst c1.
      rewrite int_to_char_char_to_int.
      rewrite poke_in by lia. cbn [mbind outcome_bind obind].
      assert (Hseq1 : forall k cs st wm,
                getc_seq P k w1 (Some f1) = Ok (cs, st, wm) ->
                getc_seq P (S k) w (Some f)
                = Ok (char_to_int (char_signed P) b :: cs, st, wm)).
      { intros k cs st wm Hk. cbn [getc_seq]. rewrite Hgetc.
        cbn [mbind outcome_bind obind]. rewrite Hk. reflexivity. }
      destruct (Z.eqb_spec (char_to_int (char_signed P) b) 10) as [Hnl | Hnl].
      * assert (Hb : b = x0a) by now apply char_to_int_newline in Hnl.
        exists (S p), (char_to_int (char_signed P) b), (<[p := b]> d), f1, w1.
        split; [reflexivity |]. split; [assumption |]. split; [lia |].
        split; [apply length_insert |].
        split; [apply take_insert_ge; lia |].
        split; [apply drop_insert_lt; lia |].
        split; [intros i Hi Hi'; lia |].
        split.
        { right. left. split; [lia |]. split; [assumption |].
          replace (S p - 1)%nat with p by lia. subst b.
          apply list_lookup_insert_eq. lia. }
        exists [char_to_int (char_signed P) b], (Some f1), w1.
        replace (S p - p)%nat with 1%nat by lia.
        split; [apply Hseq1; reflexivity |].
        split.
        { intros [| i] c0 Hi; [| discriminate Hi].
          injection Hi as <-. split; [assumption |].
          rewrite Nat.add_0_r, int_to_char_char_to_int.
          apply list_lookup_insert_eq. lia. }
        destruct (Z.eqb_spec (char_to_int (char_signed P) b) EOF);
          [contradiction | auto].
      * destruct (IH w1 f1 (<[p := b]> d) (S p) (char_to_int (char_signed P) b))
          as (p' & c' & d' & f' & w' & Hloop & Hok' & Hp' & Hlen & Htake & Hdrop
              & Hnonl & Hend & cs & st & wm & Hseq & Hcs & Hlast);
          [assumption | rewrite length_insert; lia | assumption |].
        assert (Hl : d' !! p = Some b).
        { rewrite <- (lookup_take_lt d' (S p) p) by lia.
          rewrite Htake, lookup_take_lt by lia.
          apply list_lookup_insert_eq. lia. }
        exists p', c', d', f', w'.
        rewrite length_insert in Hlen.
        split; [exact Hloop |]. split; [exact Hok' |].
        split; [lia |]. split; [exact Hlen |].
        split.
        { apply take_shorter in Htake. rewrite Htake.
          apply take_insert_ge. lia. }
        split; [rewrite Hdrop; apply drop_insert_lt; lia |].
        split.
        { intros i Hi Hi'.
          destruct (decide (i = p)) as [-> | Hip].
          - rewrite Hl. intros [= ->]. apply Hnl. now apply char_to_int_newline.
          - apply Hnonl; lia. }
        split.
        { destruct Hend as [? | [(? & ? & ?) | (? & ?)]]; auto.
          - right. left. split; [lia | auto].
          - right. right. split; [lia | auto]. }
        exists (char_to_int (char_signed P) b :: cs), st, wm.
        replace (p' - p)%nat with (S (p' - S p)) by lia.
        split; [apply Hseq1; exact Hseq |].
        split; [| exact Hlast].
        intros [| i] c0 Hi.
        -- injection Hi as <-. split; [assumption |].
           rewrite Nat.add_0_r, int_to_char_char_to_int. exact Hl.
        -- replace (p + S i)%nat with (S p + i)%nat by lia.
           apply Hcs. exact Hi.
Qed.

(** C7, as the code has it.  On a platform whose reads store no more than
    they are asked for, for a well-formed handle, a length [len] from 1 to
    [SIZE_MAX] and a destination of at least [len] characters,
    [filestream_gets] returns, and with [p] the number of characters
    placed and [c] the last value of [filestream_getc] in the loop:
    - at most [len - 1] characters are placed, the destination holds a zero
      at offset [p] and is untouched beyond it;
    - the characters placed are the values of the first [p] calls of
      [filestream_getc], in order, none of them [EOF];
    - no character before the last one placed is a newline;
    - the loop ended because one more call of [filestream_getc] returned
      [EOF], or because the last character placed is a newline, or because
      [len - 1] characters are placed;
    - the result is null exactly when [p] is zero or [c] is [EOF], and is
      the pointer to offset [p] otherwise. *)
Theorem gets_line w f (dst : list byte) len :
  handle_ok f -> 1 <= len <= SIZE_MAX -> len <= Z.of_nat (length dst) ->
  exists p c d' f' w' ret cs st wm,
    gets_loop P (Z.to_nat (len - 1)) w (Some f) (Some dst) 0%nat 0
    = Ok (p, c, Some d', Some f', w')
    /\ filestream_gets P w (Some f) (Some dst) len
       = Ok (ret, Some (<[p := x00]> d'), Some f', w')
    /\ Z.of_nat p <= len - 1
    /\ <[p := x00]> d' !! p = Some x00
    /\ length (<[p := x00]> d') = length dst
    /\ drop (S p) (<[p := x00]> d') = drop (S p) dst
    /\ getc_seq P p w (Some f) = Ok (cs, st, wm)
    /\ (forall i c0, cs !! i = Some c0 ->
          c0 <> EOF /\ <[p := x00]> d' !! i = Some (int_to_char c0))
    /\ (forall i, (i + 1 < p)%nat -> <[p := x00]> d' !! i <> Some x0a)
    /\ ((c = EOF /\ filestream_getc P wm st = Ok (EOF, Some f', w'))
        \/ (c <> EOF /\ st = Some f' /\ wm = w'
            /\ (((0 < p)%nat /\ c = 10
                 /\ <[p := x00]> d' !! (p - 1)%nat = Some x0a)
                \/ Z.of_nat p = len - 1)))
    /\ (ret = None <-> p = 0%nat \/ c = EOF)
    /\ (ret <> None -> ret = Some p).
Proof using Hbounded.
  intros Hok Hlen Hdst. unfold SIZE_MAX in Hlen.
  destruct (gets_loop_spec (Z.to_nat (len - 1)) w f dst 0%nat 0 Hok)
    as (p & c & d' & f' & w' & Hloop & Hok' & Hp & Hl & _ & Hdrop & Hnonl & Hend
        & cs & st & wm & Hseq & Hcs & Hlast);
    [lia | discriminate |].
  rewrite Nat.sub_0_r in Hseq.
  assert (Hlencs : length cs = p) by (eapply getc_seq_length; exact Hseq).
  exists p, c, d', f', w',
    (if (p =? 0)%nat || (c =? EOF) then None else Some p), cs, st, wm.
  split; [exact Hloop |]. split.
  { unfold filestream_gets. rewrite wrap64_small by lia.
    rewrite Hloop. cbn [mbind outcome_bind obind].
    rewrite poke_in by lia. reflexivity. }
  split; [lia |].
  split; [apply list_lookup_insert_eq; lia |].
  split; [rewrite length_insert; exact Hl |].
  split.
  { rewrite drop_insert_lt by lia.
    replace (S p) with (p + 1)%nat by lia.
    rewrite <- !drop_drop. now rewrite Hdrop. }
  split; [exact Hseq |].
  split.
  { intros i c0 Hi. destruct (Hcs i c0 Hi) as [Hc0 Hd]. split; [exact Hc0 |].
    assert (i < p)%nat by (rewrite <- Hlencs; eapply lookup_lt_Some; exact Hi).
    rewrite list_lookup_insert_ne by lia. exact Hd. }
  split.
  { intros i Hi. rewrite list_lookup_insert_ne by lia. apply Hnonl; lia. }
  split.
  { destruct (Z.eqb_spec c EOF) as [Hc | Hc].
    - left. auto.
    - right. destruct Hlast as [-> ->]. split; [exact Hc |].
      split; [reflexivity |]. split; [reflexivity |].
      destruct Hend as [? | [(? & ? & ?) | (? & ?)]]; [contradiction | |].
      + left. split; [lia |]. split; [assumption |].
        rewrite list_lookup_insert_ne by lia. assumption.
      + right. lia. }
  split.
  - destruct (Nat.eqb_spec p 0), (Z.eqb_spec c EOF); cbn;
      split; intros H; try discriminate H; auto; destruct H; contradiction.
  - destruct (Nat.eqb_spec p 0), (Z.eqb_spec c EOF); cbn; intros H;
      try contradiction; reflexivity.
Qed.

End Line.

Lemma posix_reads_bounded : reads_bounded Posix.libc_posix.
Proof.
  intros w len Hlen. split.
  - intros x. cbn. unfold Posix.p_fread.
    destruct (Posix.lookup_stream w x) as [[d o] |]; cbn; [| lia].
    destruct (Posix.readable (Posix.acc o)); cbn; [| lia].
    rewrite length_take. lia.
  - intros d. cbn. unfold Posix.p_read.
    destruct (Posix.fds w !! d) as [o |]; cbn; [| lia].
    destruct (Posix.readable (Posix.acc o)); cbn; [| lia].
    rewrite length_take. lia.
Qed.


(** A window holding a line and the start of the next one. *)
Lemma gets_line_witness :
  exists p c d' f' w' ret cs st wm,
    gets_loop Posix.libc_posix (Z.to_nat (10 - 1)) world_empty
      (Some (mapped_file [x61; x0a; x62] 0)) (Some (replicate 10 x01)) 0%nat 0
    = Ok (p, c, Some d', Some f', w')
    /\ filestream_gets Posix.libc_posix world_empty
         (Some (mapped_file [x61; x0a; x62] 0)) (Some (replicate 10 x01)) 10
       = Ok (ret, Some (<[p := x00]> d'), Some f', w')
    /\ Z.of_nat p <= 10 - 1
    /\ <[p := x00]> d' !! p = Some x00
    /\ length (<[p := x00]> d') = length (replicate 10 x01)
    /\ drop (S p) (<[p := x00]> d') = drop (S p) (replicate 10 x01)
    /\ getc_seq Posix.libc_posix p world_empty
         (Some (mapped_file [x61; x0a; x62] 0)) = Ok (cs, st, wm)
    /\ (forall i c0, cs !! i = Some c0 ->
          c0 <> EOF /\ <[p := x00]> d' !! i = Some (int_to_char c0))
    /\ (forall i, (i + 1 < p)%nat -> <[p := x00]> d' !! i <> Some x0a)
    /\ ((c = EOF /\ filestream_getc Posix.libc_posix wm st = Ok (EOF, Some f', w'))
        \/ (c <> EOF /\ st = Some f' /\ wm = w'
            /\ (((0 < p)%nat /\ c = 10
                 /\ <[p := x00]> d' !! (p - 1)%nat = Some x0a)
                \/ Z.of_nat p = 10 - 1)))
    /\ (ret = None <-> p = 0%nat \/ c = EOF)
    /\ (ret <> None -> ret = Some p).
Proof.
  apply (gets_line Posix.libc_posix posix_reads_bounded world_empty
           (mapped_file [x61; x0a; x62] 0) (replicate 10 x01) 10).
  - intros _ _. exists [x61; x0a; x62].
    vm_compute. repeat split; intros H; discriminate H.
  - vm_compute. split; intros H; discriminate H.
  - vm_compute. intros H; discriminate H.
Defined.

(** The same line, computed: the two characters a and newline are placed
    and terminated, the result points behind them, the cursor is at 2. *)
Example gets_one_line :
  filestream_gets Posix.libc_posix world_empty
    (Some (mapped_file [x61; x0a; x62] 0)) (Some (replicate 10 x01)) 10
  = Ok (Some 2%nat, Some ([x61; x0a; x00] ++ replicate 7 x01),
        Some (mapped_file [x61; x0a; x62] 2), world_empty).
Proof. reflexivity. Qed.

(** C7 as stated fails on a last line without a newline.  The file holds
    the two characters ab: both are placed, the destination is terminated
    after them, and the result is null.  On a buffered handle and through a
    mapped window alike. *)
Lemma gets_counterexample :
  filestream_gets Posix.libc_posix
    (world_stream 7 (Posix.mkOfile [x61; x62] 0 Posix.O_RDONLY))
    (Some (stream_file 7 2)) (Some (replicate 10 x01)) 10
  = Ok (None, Some ([x61; x62; x00] ++ replicate 7 x01),
        Some (stream_file 7 2),
        world_stream 7 (Posix.mkOfile [x61; x62] 2 Posix.O_RDONLY))
  /\ filestream_gets Posix.libc_posix world_empty
       (Some (mapped_file [x61; x62] 0)) (Some (replicate 10 x01)) 10
     = Ok (None, Some ([x61; x62; x00] ++ replicate 7 x01),
           Some (mapped_file [x61; x62] 2), world_empty).
Proof. split; reflexivity. Qed.

(* ================================================================== *)
(** ** Write, rewind, read *)

Lemma file_write_at_start (o : Posix.ofile) (data : list byte) :
  Posix.offset o = 0 ->
  Posix.file_write o data
  = Posix.mkOfile (data ++ drop (length data) (Posix.content o))
                  (Z.of_nat (length data)) (Posix.acc o).
Proof.
  intros H. unfold Posix.file_write. rewrite H. cbn.
  reflexivity.
Qed.

Lemma file_read_at_start (data rest : list byte) a :
  Posix.file_read (Posix.mkOfile (data ++ rest) 0 a) (Z.of_nat (length data))
  = (data, Posix.mkOfile (data ++ rest) (Z.of_nat (length data)) a).
Proof.
  unfold Posix.file_read. cbn [Posix.offset Posix.content Posix.acc].
  change (Z.to_nat 0) with 0%nat. rewrite drop_0, Nat2Z.id, take_app_length.
  reflexivity.
Qed.

Lemma source_bytes_all (data : list byte) :
  Posix.source_bytes (Some data) (Z.of_nat (length data)) = Ok data.
Proof.
  unfold Posix.source_bytes.
  destruct (Z.leb_spec (Z.of_nat (length data)) (Z.of_nat (length data))); [| lia].
  rewrite Nat2Z.id, take_ge by lia. reflexivity.
Qed.

Ltac posix_calls :=
  cbn [c_fread c_fwrite c_fseek c_ftell c_fflush c_fputc c_read c_write c_lseek
       Posix.libc_posix mbind outcome_bind obind].

(** C9, as the code has it.  On the POSIX instance, for a buffered or
    descriptor handle whose file is open for reading and writing and stands
    at offset 0, and for every byte sequence [data] of a length [n] that
    [ssize_t] holds: the write of [n] bytes returns [n], rewind returns,
    and the read of [n] bytes that follows returns [n] and puts [data] at
    the start of the destination. *)
Theorem write_rewind_read (w : Posix.world) (f : RFILE) (data dst : list byte) :
  rw_at_start w f ->
  Z.of_nat (length data) <= SSIZE_MAX ->
  (length data <= length dst)%nat ->
  exists w1 w2 w3,
    filestream_write Posix.libc_posix w (Some f) (Some data) (Z.of_nat (length data))
    = Ok (Z.of_nat (length data), Some f, w1)
    /\ filestream_rewind Posix.libc_posix w1 (Some f)
       = Ok (Some (set_error_flag false f), w2)
    /\ filestream_read Posix.libc_posix w2 (Some (set_error_flag false f))
         (Some dst) (Z.of_nat (length data))
       = Ok (Z.of_nat (length data), Some (set_error_flag false f),
             Some (data ++ drop (length data) dst), w3).
Proof.
  intros (o & Hback & Hacc & Hoff) Hmax Hdst.
  unfold SSIZE_MAX in Hmax. unfold backing in Hback.
  set (o1 := Posix.file_write o data).
  set (o2 := Posix.mkOfile (Posix.content o1) 0 (Posix.acc o1)).
  set (o3 := Posix.mkOfile (Posix.content o1) (Z.of_nat (length data)) Posix.O_RDWR).
  assert (Ho1 : o1 = Posix.mkOfile (data ++ drop (length data) (Posix.content o))
                                   (Z.of_nat (length data)) Posix.O_RDWR).
  { unfold o1. rewrite file_write_at_start by assumption. now rewrite Hacc. }
  assert (Hread : Posix.file_read o2 (Z.of_nat (length data)) = (data, o3)).
  { unfold o2, o3. rewrite Ho1. cbn [Posix.content Posix.acc].
    apply file_read_at_start. }
  assert (Hr : Posix.readable (Posix.acc o2) = true)
    by (unfold o2; rewrite Ho1; reflexivity).
  assert (Hn : sint64 (Z.of_nat (length data)) = Z.of_nat (length data))
    by (apply sint64_small; lia).
  assert (Hflag : forall g, flag_failure (Z.of_nat (length data)) (Some g)
                            = Ok (Some g))
    by (intros g; apply flag_failure_other; lia).
  destruct (is_buffered f) eqn:Hb; [| destruct (has_mmap_hint f) eqn:Hh].
  - (* Buffered: fwrite, fseek, fread *)
    destruct (Posix.lookup_stream w (fp f)) as [[d o'] |] eqn:Hs; [| discriminate].
    injection Hback as ->.
    destruct (lookup_stream_Some _ _ _ _ Hs) as [Hfp _].
    exists (Posix.with_stream w d o1).
    exists (Posix.with_stream (Posix.with_stream w d o1) d o2).
    exists (Posix.with_stream
              (Posix.with_stream (Posix.with_stream w d o1) d o2) d o3).
    split; [| split].
    + unfold filestream_write, filestream_write_impl. rewrite Hb.
      posix_calls. unfold Posix.p_fwrite. rewrite Hs, Hacc.
      cbn [Posix.writable]. rewrite source_bytes_all.
      posix_calls. rewrite Hn, Hflag. reflexivity.
    + unfold filestream_rewind, filestream_seek, filestream_seek_impl.
      rewrite Hb. posix_calls. unfold Posix.p_fseek.
      rewrite Hfp, lookup_stream_with_stream, file_seek_set_zero.
      reflexivity.
    + unfold filestream_read, filestream_read_impl.
      rewrite is_buffered_set_error_flag, Hb.
      posix_calls. change (fp (set_error_flag false f)) with (fp f).
      unfold Posix.p_fread. rewrite Hfp, lookup_stream_with_stream.
      rewrite Hr, Hread. rewrite store_fits by assumption.
      posix_calls. rewrite Hn, Hflag. reflexivity.
  - discriminate.
  - (* Descriptor: write, lseek, read *)
    assert (Him : is_mapped f = false).
    { unfold is_mapped. rewrite Hh. now destruct (mapped f). }
    exists (Posix.with_fd w (fd f) o1).
    exists (Posix.with_fd (Posix.with_fd w (fd f) o1) (fd f) o2).
    exists (Posix.with_fd
              (Posix.with_fd (Posix.with_fd w (fd f) o1) (fd f) o2) (fd f) o3).
    split; [| split].
    + unfold filestream_write, filestream_write_impl. rewrite Hb, Hh.
      posix_calls. unfold Posix.p_write. rewrite Hback, Hacc.
      cbn [Posix.writable]. rewrite source_bytes_all.
      posix_calls. rewrite Hflag. reflexivity.
    + unfold filestream_rewind, filestream_seek, filestream_seek_impl.
      rewrite Hb, Him. posix_calls. unfold Posix.p_lseek.
      rewrite lookup_fd_with_fd, file_seek_set_zero.
      reflexivity.
    + unfold filestream_read, filestream_read_impl.
      rewrite is_buffered_set_error_flag, has_mmap_hint_set_error_flag, Hb, Hh.
      posix_calls. change (fd (set_error_flag false f)) with (fd f).
      unfold Posix.p_read. rewrite lookup_fd_with_fd.
      rewrite Hr, Hread. rewrite store_fits by assumption.
      posix_calls. rewrite Hflag. reflexivity.
Qed.

(** A fresh stream open for update, five bytes written and read back. *)
Lemma write_rewind_read_witness :
  exists w1 w2 w3,
    filestream_write Posix.libc_posix
      (world_stream 7 (Posix.mkOfile [] 0 Posix.O_RDWR))
      (Some (stream_file 7 0)) (Some abcde) (Z.of_nat (length abcde))
    = Ok (Z.of_nat (length abcde), Some (stream_file 7 0), w1)
    /\ filestream_rewind Posix.libc_posix w1 (Some (stream_file 7 0))
       = Ok (Some (set_error_flag false (stream_file 7 0)), w2)
    /\ filestream_read Posix.libc_posix w2
         (Some (set_error_flag false (stream_file 7 0)))
         (Some (replicate 5 x00)) (Z.of_nat (length abcde))
       = Ok (Z.of_nat (length abcde),
             Some (set_error_flag false (stream_file 7 0)),
             Some (abcde ++ drop (length abcde) (replicate 5 x00)), w3).
Proof.
  apply (write_rewind_read (world_stream 7 (Posix.mkOfile [] 0 Posix.O_RDWR))
           (stream_file 7 0) abcde (replicate 5 x00)).
  - exists (Posix.mkOfile [] 0 Posix.O_RDWR). repeat split.
  - vm_compute. intros H; discriminate H.
  - vm_compute. lia.
Defined.

(** C9 as stated fails on handles with write access that cannot read, and
    on handles that do not stand at offset 0.
    - A descriptor open write-only (what [filestream_open] asks for in
      write mode, [O_WRONLY | O_CREAT | O_TRUNC]): the three bytes are
      written, the read after rewind returns -1 and delivers nothing.
    - A stream open write-only (mode [wb]): the read returns 0 bytes.
    - A descriptor open read-write at offset 2 of the file xy: the three
      bytes abc are written behind xy, the read after rewind returns the
      bytes xya. *)
Lemma write_rewind_read_counterexample :
  (filestream_write Posix.libc_posix
     (world_fd 3 (Posix.mkOfile [] 0 Posix.O_WRONLY))
     (Some (fd_file 3 0)) (Some [x61; x62; x63]) 3
   = Ok (3, Some (fd_file 3 0),
         world_fd 3 (Posix.mkOfile [x61; x62; x63] 3 Posix.O_WRONLY))
   /\ filestream_rewind Posix.libc_posix
        (world_fd 3 (Posix.mkOfile [x61; x62; x63] 3 Posix.O_WRONLY))
        (Some (fd_file 3 0))
      = Ok (Some (fd_file 3 0),
            world_fd 3 (Posix.mkOfile [x61; x62; x63] 0 Posix.O_WRONLY))
   /\ filestream_read Posix.libc_posix
        (world_fd 3 (Posix.mkOfile [x61; x62; x63] 0 Posix.O_WRONLY))
        (Some (fd_file 3 0)) (Some [x00; x00; x00]) 3
      = Ok (-1, Some (set_error_flag true (fd_file 3 0)), Some [x00; x00; x00],
            world_fd 3 (Posix.mkOfile [x61; x62; x63] 0 Posix.O_WRONLY)))
  /\ filestream_read Posix.libc_posix
       (world_stream 7 (Posix.mkOfile [x61; x62; x63] 0 Posix.O_WRONLY))
       (Some (stream_file 7 0)) (Some [x00; x00; x00]) 3
     = Ok (0, Some (stream_file 7 0), Some [x00; x00; x00],
           world_stream 7 (Posix.mkOfile [x61; x62; x63] 0 Posix.O_WRONLY))
  /\ (filestream_write Posix.libc_posix
        (world_fd 3 (Posix.mkOfile [x78; x79] 2 Posix.O_RDWR))
        (Some (fd_file 3 2)) (Some [x61; x62; x63]) 3
      = Ok (3, Some (fd_file 3 2),
            world_fd 3 (Posix.mkOfile [x78; x79; x61; x62; x63] 5 Posix.O_RDWR))
      /\ filestream_rewind Posix.libc_posix
           (world_fd 3 (Posix.mkOfile [x78; x79; x61; x62; x63] 5 Posix.O_RDWR))
           (Some (fd_file 3 2))
         = Ok (Some (fd_file 3 2),
               world_fd 3 (Posix.mkOfile [x78; x79; x61; x62; x63] 0 Posix.O_RDWR))
      /\ filestream_read Posix.libc_posix
           (world_fd 3 (Posix.mkOfile [x78; x79; x61; x62; x63] 0 Posix.O_RDWR))
           (Some (fd_file 3 2)) (Some [x00; x00; x00]) 3
         = Ok (3, Some (fd_file 3 2), Some [x78; x79; x61],
               world_fd 3 (Posix.mkOfile [x78; x79; x61; x62; x63] 3 Posix.O_RDWR))).
Proof. repeat split. Qed.

(* ================================================================== *)
(** ** What the operations leave alone *)

Lemma same_strategy_refl f : same_strategy f f.
Proof. repeat split. Qed.

Lemma same_strategy_trans f g h :
  same_strategy f g -> same_strategy g h -> same_strategy f h.
Proof.
  unfold same_strategy.
  intros (? & ? & ? & ? & ? & ? & ?) (? & ? & ? & ? & ? & ? & ?).
  repeat split; congruence.
Qed.

Lemma same_strategy_dispatch f g :
  same_strategy f g ->
  is_buffered g = is_buffered f /\ has_mmap_hint g = has_mmap_hint f
  /\ is_mapped g = is_mapped f.
Proof.
  intros (Hh & _ & _ & _ & _ & Hm & _).
  unfold is_mapped, is_buffered, has_mmap_hint. rewrite Hh, Hm. auto.
Qed.

Section Frame.
Context {W : Type} (P : libc W).

Ltac open_all :=
  cbv beta iota zeta delta
    [run_op int_result filestream_read filestream_write filestream_seek
     filestream_tell filestream_get_size filestream_flush filestream_eof
     filestream_getc filestream_rewind filestream_putc filestream_error
     filestream_read_impl filestream_write_impl filestream_seek_impl
     filestream_tell_impl filestream_flush_impl filestream_file_size_impl
     flag_failure vfs_error_return_value mbind outcome_bind obind
     set_error_flag set_mappos is_buffered has_mmap_hint is_mapped clamp_len
     error_flag fd hints size mappos mapsize buf fp mapped] in *.

Ltac case_all :=
  repeat (match goal with
          | H : context [match ?x with _ => _ end] |- _ => destruct x eqn:?
          | |- context [match ?x with _ => _ end] => destruct x eqn:?
          end; open_all; simplify_eq).

Lemma getc_frame w f c stream' w' :
  filestream_getc P w (Some f) = Ok (c, stream', w') ->
  exists g, stream' = Some g /\ same_strategy f g
            /\ (is_buffered f = true \/ has_mmap_hint f = false ->
                mappos g = mappos f).
Proof.
  intros H. destruct f as [e d h sz mp ms bf fp0 mw].
  unfold same_strategy. open_all.
  case_all; eexists; repeat split; intros [? | ?]; simplify_eq.
Qed.

Lemma gets_loop_frame n : forall w f s p c p' c' s' stream' w',
  gets_loop P n w (Some f) s p c = Ok (p', c', s', stream', w') ->
  exists g, stream' = Some g /\ same_strategy f g
            /\ (is_buffered f = true \/ has_mmap_hint f = false ->
                mappos g = mappos f).
Proof.
  induction n as [| n IH]; intros w f s p c p' c' s' stream' w' H.
  - cbn in H. simplify_eq. eauto using same_strategy_refl.
  - cbn [gets_loop] in H.
    destruct (filestream_getc P w (Some f)) as [[[c1 st1] w1] |] eqn:Hg;
      [| discriminate H].
    destruct (getc_frame _ _ _ _ _ Hg) as (g & -> & Hsame & Hpos).
    cbn [mbind outcome_bind obind] in H.
    destruct (c1 =? EOF).
    + simplify_eq. eauto.
    + destruct (poke s p (int_to_char c1)) as [s1 |]; [| discriminate H].
      cbn [mbind outcome_bind obind] in H. destruct (c1 =? 10).
      * simplify_eq. eauto.
      * destruct (IH _ _ _ _ _ _ _ _ _ _ H) as (g' & -> & Hsame' & Hpos').
        exists g'. split; [reflexivity |].
        split; [eapply same_strategy_trans; eassumption |].
        intros Hd. rewrite Hpos', Hpos; auto.
        destruct (same_strategy_dispatch _ _ Hsame) as (-> & -> & _). exact Hd.
Qed.

(** Whatever is called on a handle, the strategy bits, the descriptor, the
    stream, the cached size, the window, its size and the stream buffer stay
    as they are; and on a handle off the mapped path the cursor of the
    window stays as well. *)
Lemma op_frame (o : op) (w : W) (f : RFILE) r stream' w' :
  run_op P o w f = Ok (r, stream', w') ->
  exists g, stream' = Some g /\ same_strategy f g
            /\ (is_buffered f = true \/ has_mmap_hint f = false ->
                mappos g = mappos f).
Proof.
  intros Hr. destruct o.
  10: {
    unfold run_op, filestream_gets in Hr.
    destruct (gets_loop P _ w (Some f) s 0%nat 0)
      as [[[[[p c] s1] st1] w1] |] eqn:Hl; [| discriminate Hr].
    destruct (gets_loop_frame _ _ _ _ _ _ _ _ _ _ _ Hl) as (g & -> & Hg).
    cbn [mbind outcome_bind obind] in Hr.
    destruct (poke s1 p x00); cbn [mbind outcome_bind obind] in Hr;
      simplify_eq. eauto. }
  all: destruct f as [e d h sz mp ms bf fp0 mw]; unfold same_strategy.
  all: open_all.
  all: case_all; eexists; repeat split; intros [? | ?]; simplify_eq;
    congruence.
Qed.

Lemma seek_frame w f offset whence r stream' w' :
  filestream_seek P w (Some f) offset whence = Ok (r, stream', w') ->
  exists g, stream' = Some g /\ same_strategy f g.
Proof.
  intros H.
  destruct (op_frame (OpSeek offset whence) w f (RInt r) stream' w')
    as (g & ? & ? & _); [| eauto].
  unfold run_op, int_result. now rewrite H.
Qed.

Lemma tell_frame w f r stream' w' :
  filestream_tell P w (Some f) = Ok (r, stream', w') ->
  exists g, stream' = Some g /\ same_strategy f g.
Proof.
  intros H.
  destruct (op_frame OpTell w f (RInt r) stream' w') as (g & ? & ? & _);
    [| eauto].
  unfold run_op, int_result. now rewrite H.
Qed.

Lemma rewind_frame w f stream' w' :
  filestream_rewind P w (Some f) = Ok (stream', w') ->
  exists g, stream' = Some g /\ same_strategy f g.
Proof.
  intros H.
  destruct (op_frame OpRewind w f RVoid stream' w') as (g & ? & ? & _);
    [| eauto].
  unfold run_op. now rewrite H.
Qed.

End Frame.


(* ================================================================== *)
(** ** The hint bits *)

Lemma hint_bits_unbuffered n :
  Z.testbit RFILE_HINT_UNBUFFERED n = (n =? 8).
Proof.
  change RFILE_HINT_UNBUFFERED with (2 ^ 8).
  destruct (Z.ltb_spec n 0) as [Hn | Hn].
  - rewrite Z.testbit_neg_r by assumption. symmetry. apply Z.eqb_neq. lia.
  - rewrite Z.pow2_bits_eqb by lia. apply Z.eqb_sym.
Qed.

Lemma hint_bits_mmap n :
  Z.testbit RETRO_VFS_FILE_ACCESS_HINT_MEMORY_MAP n = (n =? 0).
Proof.
  change RETRO_VFS_FILE_ACCESS_HINT_MEMORY_MAP with (2 ^ 0).
  destruct (Z.ltb_spec n 0) as [Hn | Hn].
  - rewrite Z.testbit_neg_r by assumption. symmetry. apply Z.eqb_neq. lia.
  - rewrite Z.pow2_bits_eqb by lia. apply Z.eqb_sym.
Qed.

Ltac hint_bits :=
  apply Z.bits_inj'; intros n Hn;
  rewrite ?Z.land_spec, ?Z.lor_spec, ?Z.lnot_spec by assumption;
  rewrite ?Z.land_spec, ?Z.lor_spec, ?Z.lnot_spec by assumption;
  rewrite ?hint_bits_unbuffered, ?hint_bits_mmap, ?Z.bits_0;
  destruct (Z.eqb_spec n 8); destruct (Z.eqb_spec n 0);
  try lia; destruct (Z.testbit _ n); reflexivity.

(** [hints | RFILE_HINT_UNBUFFERED] has the unbuffered bit and the memory-map
    bit of [hints]. *)
Lemma lor_unbuffered_unbuffered h :
  Z.land (Z.lor h RFILE_HINT_UNBUFFERED) RFILE_HINT_UNBUFFERED
  = RFILE_HINT_UNBUFFERED.
Proof. hint_bits. Qed.

Lemma lor_unbuffered_mmap h :
  Z.land (Z.lor h RFILE_HINT_UNBUFFERED) RETRO_VFS_FILE_ACCESS_HINT_MEMORY_MAP
  = Z.land h RETRO_VFS_FILE_ACCESS_HINT_MEMORY_MAP.
Proof. hint_bits. Qed.

(** [hints & ~RETRO_VFS_FILE_ACCESS_HINT_MEMORY_MAP] has no memory-map bit
    and the unbuffered bit of [hints]. *)
Lemma clear_mmap_mmap h :
  Z.land (Z.land h (Z.lnot RETRO_VFS_FILE_ACCESS_HINT_MEMORY_MAP))
         RETRO_VFS_FILE_ACCESS_HINT_MEMORY_MAP = 0.
Proof. hint_bits. Qed.

Lemma clear_mmap_unbuffered h :
  Z.land (Z.land h (Z.lnot RETRO_VFS_FILE_ACCESS_HINT_MEMORY_MAP))
         RFILE_HINT_UNBUFFERED
  = Z.land h RFILE_HINT_UNBUFFERED.
Proof. hint_bits. Qed.

(** What [filestream_open] stores in [hints]: the memory-map bit stays
    when it was asked for in read mode, and then the handle is unbuffered;
    otherwise the unbuffered bit is the caller's. *)
Lemma open_hints_bits mode h :
  (Z.land (open_hints mode h) RFILE_HINT_UNBUFFERED =? 0)
  = (Z.land h RFILE_HINT_UNBUFFERED =? 0)
    && negb (negb (Z.land h RETRO_VFS_FILE_ACCESS_HINT_MEMORY_MAP =? 0)
             && is_read_mode mode)
  /\ negb (Z.land (open_hints mode h) RETRO_VFS_FILE_ACCESS_HINT_MEMORY_MAP =? 0)
     = negb (Z.land h RETRO_VFS_FILE_ACCESS_HINT_MEMORY_MAP =? 0)
       && is_read_mode mode.
Proof.
  unfold open_hints.
  destruct (negb (Z.land h RETRO_VFS_FILE_ACCESS_HINT_MEMORY_MAP =? 0)
            && is_read_mode mode) eqn:Hc.
  - rewrite lor_unbuffered_unbuffered, lor_unbuffered_mmap.
    apply andb_true_iff in Hc as [Hc _]. rewrite Hc.
    split; [| reflexivity]. now rewrite andb_false_r.
  - rewrite clear_mmap_unbuffered, clear_mmap_mmap.
    split; [now rewrite andb_true_r | reflexivity].
Qed.


(* ================================================================== *)
(** ** What [filestream_open] returns *)

Section OpenFacts.
Context {W : Type} (P : libc W) (Q : libc_files W).

Ltac step H :=
  cbn [mbind outcome_bind obind] in H.

(** [filestream_set_size] returns the handle, with the fields fixed at
    open time as they were, apart from the size it caches. *)
Lemma set_size_frame w f st w' :
  filestream_set_size P w (Some f) = Ok (st, w') ->
  exists g, st = Some g
    /\ hints g = hints f /\ fd g = fd f /\ fp g = fp f
    /\ mapsize g = mapsize f /\ mapped g = mapped f /\ buf g = buf f.
Proof.
  intros H. unfold filestream_set_size in H.
  destruct (filestream_seek P w (Some f) 0 SEEK_SET)
    as [[[r1 st1] w1] |] eqn:H1; [| discriminate H].
  apply seek_frame in H1 as (g1 & -> & S1). step H.
  destruct (filestream_seek P w1 (Some g1) 0 SEEK_END)
    as [[[r2 st2] w2] |] eqn:H2; [| discriminate H].
  apply seek_frame in H2 as (g2 & -> & S2). step H.
  destruct (filestream_tell P w2 (Some g2))
    as [[[r3 st3] w3] |] eqn:H3; [| discriminate H].
  apply tell_frame in H3 as (g3 & -> & S3). step H.
  destruct (filestream_seek P w3 (Some (set_size r3 g3)) 0 SEEK_SET)
    as [[[r4 st4] w4] |] eqn:H4; [| discriminate H].
  apply seek_frame in H4 as (g4 & -> & S4). step H.
  injection H as <- <-. exists g4. split; [reflexivity |].
  unfold same_strategy in *. cbn [hints fd fp size mapsize mapped buf set_size] in S4.
  intuition congruence.
Qed.

Ltac open_all :=
  cbv beta iota zeta delta
    [filestream_set_size filestream_seek filestream_tell filestream_rewind
     filestream_seek_impl filestream_tell_impl
     flag_failure vfs_error_return_value mbind outcome_bind obind
     set_error_flag set_mappos set_size is_buffered has_mmap_hint is_mapped
     error_flag fd hints size mappos mapsize buf fp mapped] in *.

Ltac case_all :=
  repeat (match goal with
          | H : context [match ?x with _ => _ end] |- _ => destruct x eqn:?
          | |- context [match ?x with _ => _ end] => destruct x eqn:?
          end; open_all; simplify_eq).

(** Off the mapped path [filestream_set_size] changes the cached size and
    the flag, and nothing else of the handle; on a handle that is neither
    buffered nor mapped the size it caches is what [filestream_tell] returns
    there: 0, or -1 with the flag set. *)
Lemma set_size_unmapped w f :
  is_mapped f = false ->
  exists s e w',
    filestream_set_size P w (Some f)
    = Ok (Some (set_size s (set_error_flag e f)), w')
    /\ (is_buffered f = false -> (s = 0 \/ s = -1) /\ (s = -1 -> e = true)).
Proof.
  intros Him. destruct f as [e d h sz mp ms bf fp0 mw].
  open_all.
  destruct (Z.land h RFILE_HINT_UNBUFFERED =? 0) eqn:Hb.
  - case_all; do 3 eexists; (split; [reflexivity |]); intros; discriminate.
  - rewrite Him.
    case_all; do 3 eexists; (split; [reflexivity |]); intros _;
      split; auto; try discriminate.
Qed.

(** On the mapped path the cached size is [mapsize], the cursor ends at 0,
    and nothing is called. *)
Lemma set_size_mapped w f :
  is_buffered f = false -> is_mapped f = true ->
  0 <= mapsize f <= SSIZE_MAX ->
  filestream_set_size P w (Some f)
  = Ok (Some (set_size (mapsize f) (set_mappos 0 f)), w).
Proof.
  intros Hb Him Hmax. unfold SSIZE_MAX in Hmax.
  destruct f as [e d h sz mp ms bf fp0 mw].
  cbn [mapsize mappos mapped] in *.
  assert (H0 : wrap64 0 = 0) by reflexivity.
  assert (Hs0 : sint64 0 = 0) by reflexivity.
  assert (Hms : wrap64 (ms + 0) = ms)
    by (rewrite Z.add_0_r; apply wrap64_small; lia).
  assert (Hsm : sint64 ms = ms) by (apply sint64_small; lia).
  assert (Hne : (ms =? -1) = false) by (apply Z.eqb_neq; lia).
  assert (Hz : (0 =? -1) = false) by reflexivity.
  open_all. unfold SEEK_SET, SEEK_CUR, SEEK_END.
  change (0 =? 0) with true. change (2 =? 0) with false.
  change (2 =? 1) with false. change (2 =? 2) with true.
  change (0 <? 0) with false.
  repeat (first [rewrite Hb | rewrite Him | rewrite H0 | rewrite Hs0
                | rewrite Hms | rewrite Hsm | rewrite Hne | rewrite Hz
                | rewrite Z.ltb_irrefl ]; cbv beta iota zeta).
  reflexivity.
Qed.

(** Rewinding a handle that is neither buffered nor mapped clears the flag
    and leaves the rest of the handle. *)
Lemma rewind_descriptor w f :
  is_buffered f = false -> is_mapped f = false ->
  exists w', filestream_rewind P w (Some f)
             = Ok (Some (set_error_flag false f), w').
Proof.
  intros Hb Him. unfold filestream_rewind, filestream_seek.
  destruct (seek_descriptor_result P w f 0 SEEK_SET Hb Him) as [w' [H | H]];
    rewrite H; exists w'; reflexivity.
Qed.

(** The block of [filestream_open] that sizes and maps the file.  The
    seek that sizes it takes the descriptor path, so the size is 0, or the
    open fails; [mmap] is asked for 0 bytes, and the handle keeps the hint
    exactly when that call gives a window. *)
Lemma open_mapping_result w f :
  is_buffered f = false ->
  exists st w', open_mapping P Q w f = Ok (st, w') /\
    forall g, st = Some g ->
      exists w3,
        g = match (c_mmap Q w3 0 (fd f)).1 with
            | Some win =>
                mkRFILE false (fd f) (hints f) (size f) 0 0 (buf f) (fp f)
                        (Some win)
            | None =>
                mkRFILE false (fd f)
                        (Z.land (hints f)
                           (Z.lnot RETRO_VFS_FILE_ACCESS_HINT_MEMORY_MAP))
                        (size f) 0 0 (buf f) (fp f) MAP_FAILED
            end.
Proof.
  intros Hb. unfold open_mapping.
  set (f1 := set_mapped None (set_mappos 0 f)).
  assert (Hb1 : is_buffered f1 = false) by exact Hb.
  destruct (mapsize_probe P w f1 Hb1 eq_refl) as [w1 [H | H]]; rewrite H;
    cbn [mbind outcome_bind obind].
  - change (mapsize (set_mapsize (wrap64 0) f1) =? wrap64 (-1)) with false.
    cbv iota.
    set (f2 := set_mapsize (wrap64 0) f1).
    assert (Hb2 : is_buffered f2 = false) by exact Hb.
    destruct (rewind_descriptor w1 f2 Hb2 eq_refl) as [w2 Hr]. rewrite Hr.
    cbn [mbind outcome_bind obind].
    change (mapsize (set_error_flag false f2)) with 0.
    change (fd (set_error_flag false f2)) with (fd f).
    destruct (c_mmap Q w2 0 (fd f)) as [m w3] eqn:Hm.
    destruct m as [win |]; do 2 eexists; (split; [reflexivity |]);
      intros g [= <-]; exists w2; rewrite Hm; reflexivity.
  - change (mapsize (set_mapsize (wrap64 (-1)) (set_error_flag true f1))
            =? wrap64 (-1)) with true.
    cbv iota. do 2 eexists. split; [reflexivity |]. intros g [=].
Qed.

(** [filestream_open] returns, and the handle it returns is one of four:
    - on a stream: buffered, with the stream and its buffer;
    - on a descriptor: no memory-map hint, the size cached is 0 or -1 when
      the handle is unbuffered;
    - mapped: the hint is set, the call of [mmap] for 0 bytes gave a window,
      and [mapsize], cursor and cached size are 0;
    - fallen back: the hint was asked for and taken, the call of [mmap] for
      0 bytes failed, the hint is cleared and [mapped] is [MAP_FAILED]. *)
Lemma open_shape w path mode h :
  exists st w', filestream_open P Q w path mode h = Ok (st, w') /\
    forall g, st = Some g ->
      let hh := open_hints mode h in
      (exists x b s e,
          (Z.land hh RFILE_HINT_UNBUFFERED =? 0) = true
          /\ (open_mode Q mode hh).1 <> None
          /\ g = mkRFILE e 0 hh s 0 0 b (Some x) None)
      \/ (exists d s e,
          negb (Z.land hh RETRO_VFS_FILE_ACCESS_HINT_MEMORY_MAP =? 0) = false
          /\ ((Z.land hh RFILE_HINT_UNBUFFERED =? 0) = true ->
              (open_mode Q mode hh).1 = None)
          /\ ((Z.land hh RFILE_HINT_UNBUFFERED =? 0) = false ->
              s = 0 \/ s = -1)
          /\ g = mkRFILE e d hh s 0 0 None None None)
      \/ (exists d win w3,
          negb (Z.land hh RETRO_VFS_FILE_ACCESS_HINT_MEMORY_MAP =? 0) = true
          /\ (Z.land hh RFILE_HINT_UNBUFFERED =? 0) = false
          /\ (c_mmap Q w3 0 d).1 = Some win
          /\ g = mkRFILE false d hh 0 0 0 None None (Some win))
      \/ (exists d s e w3,
          negb (Z.land hh RETRO_VFS_FILE_ACCESS_HINT_MEMORY_MAP =? 0) = true
          /\ (Z.land hh RFILE_HINT_UNBUFFERED =? 0) = false
          /\ (c_mmap Q w3 0 d).1 = None
          /\ (s = 0 \/ s = -1)
          /\ g = mkRFILE e d
                  (Z.land hh (Z.lnot RETRO_VFS_FILE_ACCESS_HINT_MEMORY_MAP))
                  s 0 0 None None MAP_FAILED).
Proof.
  unfold filestream_open.
  destruct (c_calloc Q w 1 (sizeof_RFILE Q)) as [got w1].
  destruct got; cbn [negb];
    [| do 2 eexists; split; [reflexivity | intros g [=]]].
  destruct (open_hints_bits mode h) as [Hu Hm].
  set (hh := open_hints mode h) in *.
  set (f0 := set_hints hh RFILE_zero).
  change (hints f0) with hh.
  destruct (open_mode Q mode hh) as [ms fl] eqn:Hmode.
  assert (Hmh : has_mmap_hint f0 = true -> is_buffered f0 = false).
  { unfold has_mmap_hint, is_buffered. change (hints f0) with hh.
    rewrite Hu, Hm. intros ->. apply andb_false_r. }
  destruct (is_buffered f0) eqn:Hb0; destruct ms as [m |].
  1: { (* on a stream *)
    destruct (c_fopen Q w1 path m) as [p w2]. destruct p as [x |].
    - destruct (c_calloc Q w2 1 16384) as [got2 w3].
      cbn [mbind outcome_bind obind].
      set (f1 := set_buf _ _).
      destruct (set_size_unmapped (c_setvbuf Q w3 (fp f1) (buf f1) 16384)
                  f1 eq_refl) as (s & e & w4 & Hs & _).
      rewrite Hs. do 2 eexists. split; [reflexivity |].
      intros g [= <-]. left. exists x, (buf f1), s, e.
      split; [exact Hb0 |]. split; [discriminate |]. reflexivity.
    - cbn [mbind outcome_bind obind].
      do 2 eexists. split; [reflexivity |]. intros g [=]. }
  all: destruct (c_open Q w1 path fl) as [d w2].
  all: destruct (d =? -1); cbn [mbind outcome_bind obind];
    [do 2 eexists; split; [reflexivity | intros g [=]] |].
  all: change (has_mmap_hint (set_fd d f0)) with (has_mmap_hint f0).
  all: destruct (has_mmap_hint f0) eqn:Hh;
    [specialize (Hmh eq_refl); try congruence |].
  2, 4: (
    (* sized and mapped *)
    destruct (open_mapping_result w2 (set_fd d f0) Hb0) as (st & w3 & Ho & Hg);
    rewrite Ho; cbn [mbind outcome_bind obind];
    destruct st as [g1 |];
      [| do 2 eexists; split; [reflexivity | intros g [=]]];
    destruct (Hg g1 eq_refl) as [wm Hg1];
    change (fd (set_fd d f0)) with d in Hg1;
    destruct (c_mmap Q wm 0 d).1 as [win |] eqn:Hmm; subst g1;
      [ rewrite set_size_mapped;
          [| exact Hb0 | exact Hh | vm_compute; split; discriminate ];
        do 2 eexists; (split; [reflexivity |]); intros g [= <-];
        right; right; left; exists d, win, wm; repeat split; assumption
      | match goal with
        | |- context [filestream_set_size P ?w0 (Some ?f1)] =>
            destruct (set_size_unmapped w0 f1) as (s & e & w4 & Hs & Hsz)
        end;
        [ unfold is_mapped, has_mmap_hint; cbn [mapped hints MAP_FAILED];
          fold hh; now rewrite clear_mmap_mmap
        | rewrite Hs; do 2 eexists; (split; [reflexivity |]); intros g [= <-];
          right; right; right; exists d, s, e, wm;
          repeat split; try assumption;
          apply Hsz; unfold is_buffered; cbn [hints]; fold hh;
          rewrite clear_mmap_unbuffered; exact Hb0 ] ]).
  all: (* on a descriptor *)
    cbn [mbind outcome_bind obind];
    match goal with
    | |- context [filestream_set_size P ?w0 (Some ?f1)] =>
        destruct (set_size_unmapped w0 f1 eq_refl) as (s & e & w4 & Hs & Hsz)
    end;
    rewrite Hs; do 2 eexists; (split; [reflexivity |]); intros g [= <-];
    right; left; exists d, s, e;
    (split; [exact Hh |]); (split; [| split; [| reflexivity]]).
  all: try (intros; reflexivity).
  all: try (intros Hx; unfold is_buffered in Hb0; change (hints f0) with hh in Hb0; congruence).
  all: try (intros Hx; apply Hsz; exact Hb0).
Qed.


(** A handle that [filestream_open] returns with the memory-map hint is
    unbuffered and has a window. *)
Lemma open_hint_mapped w path mode h g w' :
  filestream_open P Q w path mode h = Ok (Some g, w') ->
  has_mmap_hint g = true ->
  is_buffered g = false /\ is_mapped g = true /\ size g = 0.
Proof.
  intros H Hh. destruct (open_shape w path mode h) as (st & w1 & Ho & Hg).
  rewrite Ho in H. injection H as -> ->.
  destruct (open_hints_bits mode h) as [Hu Hm].
  destruct (Hg g eq_refl)
    as [(x & b & s & e & Hb & _ & ->)
       | [(d & s & e & Hn & _ & _ & ->)
         | [(d & win & w3 & _ & Hb & _ & ->)
           | (d & s & e & w3 & _ & _ & _ & _ & ->)]]];
    unfold has_mmap_hint, is_buffered, is_mapped in *;
    cbn [hints mapped size] in *.
  - rewrite Hu in Hb. rewrite Hm in Hh. rewrite Hh in Hb.
    rewrite andb_false_r in Hb. discriminate Hb.
  - congruence.
  - auto.
  - rewrite clear_mmap_mmap in Hh. discriminate Hh.
Qed.


Lemma opened_mapped_unbuffered f :
  opened P Q f -> has_mmap_hint f = true -> is_buffered f = false.
Proof.
  intros (w & path & mode & h & g & w' & Ho & Hs) Hh.
  destruct (same_strategy_dispatch _ _ Hs) as (Hb & Hh' & _).
  rewrite Hh' in Hh. rewrite Hb.
  now destruct (open_hint_mapped _ _ _ _ _ _ Ho Hh).
Qed.

(** The operations lead from handles a caller can hold to handles a caller
    can hold. *)
Lemma opened_run_op (o : op) w f r stream' w' :
  opened P Q f -> run_op P o w f = Ok (r, stream', w') ->
  exists g, stream' = Some g /\ opened P Q g.
Proof.
  intros (w0 & path & mode & h & g0 & w0' & Ho & Hs) Hr.
  destruct (op_frame P o w f r stream' w' Hr) as (g & -> & Hg & _).
  exists g. split; [reflexivity |].
  exists w0, path, mode, h, g0, w0'. split; [exact Ho |].
  eapply same_strategy_trans; eassumption.
Qed.

End OpenFacts.

(* ================================================================== *)
(** ** C1: the read through the window *)

Section MappedReadOpened.
Context {W : Type} (P : libc W) (Q : libc_files W).



End MappedReadOpened.


(* ================================================================== *)
(** ** C3: [SEEK_END] on the mapped cursor *)



(* ================================================================== *)
(** ** C2: [SEEK_CUR], then tell *)

(** C2 on a descriptor handle.  On every platform, whatever [lseek]
    reports, a seek by [SEEK_CUR] on a handle that is neither buffered nor
    mapped returns 0 or -1, and so does the tell that follows.  On the POSIX
    instance, on the handle that [filestream_open] returns for a descriptor
    (cached size 0) at offset 0 of a file of 5 bytes: [SEEK_CUR] by 2
    succeeds, [lseek] reports offset 2 for the descriptor, and the tell
    that follows returns 0. *)
Theorem seek_cur_tell_descriptor :
  (forall (W : Type) (P : libc W) w f offset r st w1 r' st' w2,
      is_buffered f = false -> is_mapped f = false ->
      filestream_seek P w (Some f) offset SEEK_CUR = Ok (r, st, w1) ->
      filestream_tell P w1 st = Ok (r', st', w2) ->
      (r = 0 \/ r = -1) /\ (r' = 0 \/ r' = -1))
  /\ filestream_seek Posix.libc_posix
       (world_fd 3 (Posix.mkOfile abcde 0 Posix.O_RDONLY))
       (Some (fd_file 3 0)) 2 SEEK_CUR
     = Ok (0, Some (fd_file 3 0), world_fd 3 (Posix.mkOfile abcde 2 Posix.O_RDONLY))
  /\ Posix.p_lseek (world_fd 3 (Posix.mkOfile abcde 2 Posix.O_RDONLY)) 3 0 SEEK_CUR
     = (2, world_fd 3 (Posix.mkOfile abcde 2 Posix.O_RDONLY))
  /\ filestream_tell Posix.libc_posix
       (world_fd 3 (Posix.mkOfile abcde 2 Posix.O_RDONLY)) (Some (fd_file 3 0))
     = Ok (0, Some (fd_file 3 0), world_fd 3 (Posix.mkOfile abcde 2 Posix.O_RDONLY)).
Proof.
  split; [| repeat split].
  intros W P w f offset r st w1 r' st' w2 Hb Him Hs Ht.
  unfold filestream_seek in Hs.
  destruct (seek_descriptor_result P w f offset SEEK_CUR Hb Him)
    as [wa [Ha | Ha]]; rewrite Ha in Hs; cbn in Hs;
    injection Hs as <- <- <-.
  - split; [auto |]. unfold filestream_tell in Ht.
    destruct (tell_descriptor_result P wa f Hb Him) as [wb [Hc | Hc]];
      rewrite Hc in Ht; cbn in Ht; injection Ht as <- _ _; auto.
  - split; [auto |]. unfold filestream_tell in Ht.
    destruct (tell_descriptor_result P wa (set_error_flag true f) Hb Him)
      as [wb [Hc | Hc]];
      rewrite Hc in Ht; cbn in Ht; injection Ht as <- _ _; auto.
Qed.

(* ================================================================== *)
(** ** C4: null arguments *)

(** C4 at a null handle.  The callback wrappers test the handle and answer
    -1 without touching anything; [filestream_read] and [filestream_write]
    then compare the answer with the failure value and store into
    [stream->error_flag], through the null handle: on every platform, for
    every buffer and length, the call is undefined. *)
Theorem null_handle_read_write {W : Type} (P : libc W) (w : W)
    (s : option buffer) (len : Z) :
  filestream_read_impl P w None s len = Ok (-1, None, s, w)
  /\ filestream_read P w None s len = Fault NullDeref
  /\ filestream_write_impl P w None s len = Ok (-1, None, w)
  /\ filestream_write P w None s len = Fault NullDeref.
Proof. destruct s; repeat split. Qed.
